(** * enacl_nif: the NIF layer of the Erlang bindings for NaCl

    A shallow embedding of [c_src/enacl_nif.c].  Every C function of the
    file is a Rocq function of the same name; the Erlang runtime interface
    ([erl_nif.h]) and the cryptographic library ([sodium.h]) are the two
    collaborators the file is compiled against, and they are modelled
    below only as far as the C code observes them. *)

From Stdlib Require Import ZArith List String Bool Lia.
From Stdlib.Strings Require Import Byte.
Import ListNotations.

Open Scope string_scope.
Open Scope list_scope.
Open Scope Z_scope.

(** ** Erlang terms *)

(** The terms the NIFs receive and build. *)
Inductive ERL_NIF_TERM : Type :=
| Int (z : Z)
| Atom (a : string)
| Binary (b : list byte)
| Nil
| Cons (hd tl : ERL_NIF_TERM)
| Tuple2 (x y : ERL_NIF_TERM).

(** An inspected binary: [size] bytes at [data]. *)
Definition ErlNifBinary : Type := list byte.

Definition size (b : ErlNifBinary) : Z := Z.of_nat (List.length b).

(** What the caller of a NIF observes: a term, the [badarg] exception
    raised by returning [enif_make_badarg], or no defined behaviour at all
    (a precondition of the runtime interface was broken). *)
Inductive outcome : Type :=
| Value (t : ERL_NIF_TERM)
| Raise_badarg
| Undefined.

(** ** The world a NIF runs in *)

Inductive event : Type :=
| Alloc (n : Z) (ok : bool)   (* enif_alloc_binary(n, _) and its answer *)
| Release                     (* enif_release_binary *)
| Call (primitive : string).  (* a call into the cryptographic library *)

(** [heap] lists the answers of the coming [enif_alloc_binary] calls (an
    exhausted list answers yes), [entropy] is the state of the library's
    random generator, [trace] the events so far, oldest first. *)
Record world : Type := mkWorld {
  heap : list bool;
  entropy : Z;
  trace : list event
}.

Definition M (A : Type) : Type := world -> A * world.

Definition ret {A : Type} (a : A) : M A := fun w => (a, w).

Definition bind {A B : Type} (m : M A) (k : A -> M B) : M B :=
  fun w => let (a, w') := m w in k a w'.

Notation "'let*' x ':=' m 'in' k" := (bind m (fun x => k))
  (at level 10, x name, m at level 100, k at level 200).

Definition log (e : event) : M unit :=
  fun w => (tt, mkWorld (heap w) (entropy w) (trace w ++ [e])).

(** The events a computation adds to the trace when run from [w]. *)
Definition emitted {A : Type} (m : M A) (w : world) : list event :=
  skipn (List.length (trace w)) (trace (snd (m w))).

(** ** erl_nif.h, as the C file uses it *)

Definition enif_make_badarg : outcome := Raise_badarg.

Definition enif_make_atom (a : string) : ERL_NIF_TERM := Atom a.

Definition enif_make_tuple2 (x y : ERL_NIF_TERM) : ERL_NIF_TERM := Tuple2 x y.

Definition enif_make_int64 (z : Z) : ERL_NIF_TERM := Int z.

Definition enif_make_binary (b : ErlNifBinary) : ERL_NIF_TERM := Binary b.

(** Succeeds on a binary term only. *)
Definition enif_inspect_binary (t : ERL_NIF_TERM) : option ErlNifBinary :=
  match t with
  | Binary b => Some b
  | _ => None
  end.

Definition byte_of_int (z : Z) : option byte :=
  if (0 <=? z) && (z <? 256) then Byte.of_N (Z.to_N z) else None.

(** Succeeds on an iolist: a binary, or a list of bytes, binaries and
    iolists whose tail is the empty list or a binary.  The result is the
    flattened content. *)
Fixpoint enif_inspect_iolist_as_binary (t : ERL_NIF_TERM) : option ErlNifBinary :=
  match t with
  | Binary b => Some b
  | Nil => Some []
  | Cons h tl =>
      match (match h with
             | Int z => option_map (fun x => [x]) (byte_of_int z)
             | _ => enif_inspect_iolist_as_binary h
             end), enif_inspect_iolist_as_binary tl with
      | Some front, Some back => Some (front ++ back)
      | _, _ => None
      end
  | _ => None
  end.

(** Succeeds on an integer that fits an [ErlNifUInt64]. *)
Definition enif_get_uint64 (t : ERL_NIF_TERM) : option Z :=
  match t with
  | Int z => if (0 <=? z) && (z <? 2 ^ 64) then Some z else None
  | _ => None
  end.

(** A fresh binary of [n] bytes, or failure, as the heap decides.  C
    leaves the bytes of the buffer uninitialised; the zeros here stand for
    them, and show only where a callee writes less than the buffer
    holds. *)
Definition enif_alloc_binary (n : Z) : M (option ErlNifBinary) :=
  fun w =>
    let ok := hd true (heap w) in
    (if ok then Some (repeat x00 (Z.to_nat n)) else None,
     mkWorld (tl (heap w)) (entropy w) (trace w ++ [Alloc n ok])).

Definition enif_release_binary : M unit := log Release.

(** [pos + len] must not exceed the size of the binary. *)
Definition enif_make_sub_binary (b : ErlNifBinary) (pos len : Z) : outcome :=
  if (0 <=? pos) && (0 <=? len) && (pos + len <=? size b)
  then Value (Binary (firstn (Z.to_nat len) (skipn (Z.to_nat pos) b)))
  else Undefined.

(** A callee writing [out] at the start of the buffer [buf]: the buffer
    keeps its size. *)
Definition write (buf out : ErlNifBinary) : ErlNifBinary :=
  firstn (List.length buf) out ++ skipn (List.length out) buf.

(** [size_t] and [unsigned long long] arithmetic. *)
Definition size_sub (a b : Z) : Z := (a - b) mod 2 ^ 64.
Definition size_add (a b : Z) : Z := (a + b) mod 2 ^ 64.

(** ** sodium.h *)

(** Modelled from the spec: the size macros of [sodium.h], a header that
    is not among the sources.  Keys of 32 bytes, nonces of 24 bytes,
    [ZEROBYTES = 32] and [BOXZEROBYTES = 16] are the sizes the
    specification's claims name; the sizes of hashes, signatures and
    authenticators are those of NaCl.  The statements below name the
    macros, not their values. *)
Definition crypto_hash_BYTES : Z := 64.
Definition crypto_box_NONCEBYTES : Z := 24.
Definition crypto_box_ZEROBYTES : Z := 32.
Definition crypto_box_BOXZEROBYTES : Z := 16.
Definition crypto_box_PUBLICKEYBYTES : Z := 32.
Definition crypto_box_SECRETKEYBYTES : Z := 32.
Definition crypto_sign_BYTES : Z := 64.
Definition crypto_sign_PUBLICKEYBYTES : Z := 32.
Definition crypto_sign_SECRETKEYBYTES : Z := 64.
Definition crypto_secretbox_NONCEBYTES : Z := 24.
Definition crypto_secretbox_KEYBYTES : Z := 32.
Definition crypto_secretbox_ZEROBYTES : Z := 32.
Definition crypto_secretbox_BOXZEROBYTES : Z := 16.
Definition crypto_stream_KEYBYTES : Z := 32.
Definition crypto_stream_NONCEBYTES : Z := 24.
Definition crypto_auth_BYTES : Z := 32.
Definition crypto_auth_KEYBYTES : Z := 32.
Definition crypto_onetimeauth_BYTES : Z := 16.
Definition crypto_onetimeauth_KEYBYTES : Z := 32.

(** The primitives, as functions of the bytes they read.  A primitive that
    fills an output buffer yields the bytes it writes; one that reports a
    status yields the [int] it returns; the key generators read the random
    generator's state. *)
Class Sodium : Type := {
  crypto_hash : ErlNifBinary -> ErlNifBinary;
  crypto_verify_16 : ErlNifBinary -> ErlNifBinary -> Z;
  crypto_verify_32 : ErlNifBinary -> ErlNifBinary -> Z;
  crypto_box_keypair : Z -> ErlNifBinary * ErlNifBinary;
  crypto_box :
    ErlNifBinary -> ErlNifBinary -> ErlNifBinary -> ErlNifBinary -> ErlNifBinary;
  crypto_box_open :
    ErlNifBinary -> ErlNifBinary -> ErlNifBinary -> ErlNifBinary -> Z * ErlNifBinary;
  crypto_sign_keypair : Z -> ErlNifBinary * ErlNifBinary;
  crypto_sign : ErlNifBinary -> ErlNifBinary -> ErlNifBinary * Z;
  crypto_sign_open : ErlNifBinary -> ErlNifBinary -> Z * (ErlNifBinary * Z);
  crypto_secretbox : ErlNifBinary -> ErlNifBinary -> ErlNifBinary -> ErlNifBinary;
  crypto_secretbox_open :
    ErlNifBinary -> ErlNifBinary -> ErlNifBinary -> Z * ErlNifBinary;
  crypto_stream : Z -> ErlNifBinary -> ErlNifBinary -> ErlNifBinary;
  crypto_stream_xor : ErlNifBinary -> ErlNifBinary -> ErlNifBinary -> ErlNifBinary;
  crypto_auth : ErlNifBinary -> ErlNifBinary -> ErlNifBinary;
  crypto_auth_verify : ErlNifBinary -> ErlNifBinary -> ErlNifBinary -> Z;
  crypto_onetimeauth : ErlNifBinary -> ErlNifBinary -> ErlNifBinary;
  crypto_onetimeauth_verify : ErlNifBinary -> ErlNifBinary -> ErlNifBinary -> Z
}.

(** Running a primitive: its result, with the call on the trace. *)
Definition call {A : Type} (primitive : string) (result : A) : M A :=
  let* _ := log (Call primitive) in ret result.

(** A key generator draws from the random generator and advances it. *)
Definition call_keypair {A : Type} (primitive : string) (gen : Z -> A) : M A :=
  fun w =>
    (gen (entropy w),
     mkWorld (heap w) (entropy w + 1) (trace w ++ [Call primitive])).

(** ** c_src/enacl_nif.c *)

(** A NIF takes [argv]; [argc] is its length. *)
Definition nif : Type := list ERL_NIF_TERM -> M outcome.

Section Nifs.

Context {sodium : Sodium}.

(* Errors *)
Definition nacl_error_tuple (error_atom : string) : outcome :=
  Value (enif_make_tuple2 (enif_make_atom "error") (enif_make_atom error_atom)).

(* Initialization *)
Definition enif_crypto_load : M Z :=
  let* _ := call "sodium_init" tt in ret 0.

(* Low-level functions (Hashing, String Equality, ...) *)

Definition enif_crypto_hash : nif := fun argv =>
  match argv with
  | [a0] =>
      match enif_inspect_iolist_as_binary a0 with
      | Some input =>
          let* alloc := enif_alloc_binary crypto_hash_BYTES in
          match alloc with
          | None => ret (nacl_error_tuple "alloc_failed")
          | Some result =>
              let* out := call "crypto_hash" (crypto_hash input) in
              ret (Value (enif_make_binary (write result out)))
          end
      | None => ret enif_make_badarg
      end
  | _ => ret enif_make_badarg
  end.

Definition enif_crypto_verify_16 : nif := fun argv =>
  match argv with
  | [a0; a1] =>
      match enif_inspect_binary a0, enif_inspect_binary a1 with
      | Some x, Some y =>
          if negb (size x =? 16) || negb (size y =? 16)
          then ret enif_make_badarg
          else
            let* rc := call "crypto_verify_16" (crypto_verify_16 x y) in
            if 0 =? rc
            then ret (Value (enif_make_atom "true"))
            else ret (Value (enif_make_atom "false"))
      | _, _ => ret enif_make_badarg
      end
  | _ => ret enif_make_badarg
  end.

Definition enif_crypto_verify_32 : nif := fun argv =>
  match argv with
  | [a0; a1] =>
      match enif_inspect_binary a0, enif_inspect_binary a1 with
      | Some x, Some y =>
          if negb (size x =? 32) || negb (size y =? 32)
          then ret enif_make_badarg
          else
            let* rc := call "crypto_verify_32" (crypto_verify_32 x y) in
            if 0 =? rc
            then ret (Value (enif_make_atom "true"))
            else ret (Value (enif_make_atom "false"))
      | _, _ => ret enif_make_badarg
      end
  | _ => ret enif_make_badarg
  end.

(* Public-key cryptography *)

Definition enif_crypto_box_NONCEBYTES : nif := fun _ =>
  ret (Value (enif_make_int64 crypto_box_NONCEBYTES)).

Definition enif_crypto_box_ZEROBYTES : nif := fun _ =>
  ret (Value (enif_make_int64 crypto_box_ZEROBYTES)).

Definition enif_crypto_box_BOXZEROBYTES : nif := fun _ =>
  ret (Value (enif_make_int64 crypto_box_BOXZEROBYTES)).

Definition enif_crypto_box_PUBLICKEYBYTES : nif := fun _ =>
  ret (Value (enif_make_int64 crypto_box_PUBLICKEYBYTES)).

Definition enif_crypto_box_SECRETKEYBYTES : nif := fun _ =>
  ret (Value (enif_make_int64 crypto_box_SECRETKEYBYTES)).

Definition enif_crypto_box_keypair : nif := fun argv =>
  match argv with
  | [] =>
      let* alloc_pk := enif_alloc_binary crypto_box_PUBLICKEYBYTES in
      match alloc_pk with
      | None => ret (nacl_error_tuple "alloc_failed")
      | Some pk =>
          let* alloc_sk := enif_alloc_binary crypto_box_SECRETKEYBYTES in
          match alloc_sk with
          | None => ret (nacl_error_tuple "alloc_failed")
          | Some sk =>
              let* keys := call_keypair "crypto_box_keypair" crypto_box_keypair in
              ret (Value (enif_make_tuple2
                            (enif_make_binary (write pk (fst keys)))
                            (enif_make_binary (write sk (snd keys)))))
          end
      end
  | _ => ret enif_make_badarg
  end.

Definition enif_crypto_box : nif := fun argv =>
  match argv with
  | [a0; a1; a2; a3] =>
      match enif_inspect_iolist_as_binary a0, enif_inspect_binary a1,
            enif_inspect_binary a2, enif_inspect_binary a3 with
      | Some padded_msg, Some nonce, Some pk, Some sk =>
          if negb (size nonce =? crypto_box_NONCEBYTES)
             || negb (size pk =? crypto_box_PUBLICKEYBYTES)
             || negb (size sk =? crypto_box_SECRETKEYBYTES)
             || (size padded_msg <? crypto_box_ZEROBYTES)
          then ret enif_make_badarg
          else
            let* alloc := enif_alloc_binary (size padded_msg) in
            match alloc with
            | None => ret (nacl_error_tuple "alloc_failed")
            | Some result =>
                let* out := call "crypto_box" (crypto_box padded_msg nonce pk sk) in
                ret (enif_make_sub_binary
                       (write result out)
                       crypto_box_BOXZEROBYTES
                       (size_sub (size padded_msg) crypto_box_BOXZEROBYTES))
            end
      | _, _, _, _ => ret enif_make_badarg
      end
  | _ => ret enif_make_badarg
  end.

Definition enif_crypto_box_open : nif := fun argv =>
  match argv with
  | [a0; a1; a2; a3] =>
      match enif_inspect_iolist_as_binary a0, enif_inspect_binary a1,
            enif_inspect_binary a2, enif_inspect_binary a3 with
      | Some padded_ciphertext, Some nonce, Some pk, Some sk =>
          if negb (size nonce =? crypto_box_NONCEBYTES)
             || negb (size pk =? crypto_box_PUBLICKEYBYTES)
             || negb (size sk =? crypto_box_SECRETKEYBYTES)
             || (size padded_ciphertext <? crypto_box_BOXZEROBYTES)
          then ret enif_make_badarg
          else
            let* alloc := enif_alloc_binary (size padded_ciphertext) in
            match alloc with
            | None => ret (nacl_error_tuple "alloc_failed")
            | Some result =>
                let* opened :=
                  call "crypto_box_open" (crypto_box_open padded_ciphertext nonce pk sk) in
                if negb (fst opened =? 0)
                then
                  let* _ := enif_release_binary in
                  ret (nacl_error_tuple "failed_verification")
                else
                  ret (enif_make_sub_binary
                         (write result (snd opened))
                         crypto_box_ZEROBYTES
                         (size_sub (size padded_ciphertext) crypto_box_ZEROBYTES))
            end
      | _, _, _, _ => ret enif_make_badarg
      end
  | _ => ret enif_make_badarg
  end.

(* Signing *)

Definition enif_crypto_sign_PUBLICKEYBYTES : nif := fun _ =>
  ret (Value (enif_make_int64 crypto_sign_PUBLICKEYBYTES)).

Definition enif_crypto_sign_SECRETKEYBYTES : nif := fun _ =>
  ret (Value (enif_make_int64 crypto_sign_SECRETKEYBYTES)).

Definition enif_crypto_sign_keypair : nif := fun argv =>
  match argv with
  | [] =>
      let* alloc_pk := enif_alloc_binary crypto_sign_PUBLICKEYBYTES in
      match alloc_pk with
      | None => ret (nacl_error_tuple "alloc_failed")
      | Some pk =>
          let* alloc_sk := enif_alloc_binary crypto_sign_SECRETKEYBYTES in
          match alloc_sk with
          | None => ret (nacl_error_tuple "alloc_failed")
          | Some sk =>
              let* keys := call_keypair "crypto_sign_keypair" crypto_sign_keypair in
              ret (Value (enif_make_tuple2
                            (enif_make_binary (write pk (fst keys)))
                            (enif_make_binary (write sk (snd keys)))))
          end
      end
  | _ => ret enif_make_badarg
  end.

Definition enif_crypto_sign : nif := fun argv =>
  match argv with
  | [a0; a1] =>
      match enif_inspect_iolist_as_binary a0, enif_inspect_binary a1 with
      | Some m, Some sk =>
          if negb (size sk =? crypto_sign_SECRETKEYBYTES)
          then ret enif_make_badarg
          else
            let* alloc := enif_alloc_binary (size_add (size m) crypto_sign_BYTES) in
            match alloc with
            | None => ret (nacl_error_tuple "alloc_failed")
            | Some sm =>
                let* signed := call "crypto_sign" (crypto_sign m sk) in
                let smlen := snd signed in
                ret (enif_make_sub_binary (write sm (fst signed)) 0 smlen)
            end
      | _, _ => ret enif_make_badarg
      end
  | _ => ret enif_make_badarg
  end.

Definition enif_crypto_sign_open : nif := fun argv =>
  match argv with
  | [a0; a1] =>
      match enif_inspect_iolist_as_binary a0, enif_inspect_binary a1 with
      | Some sm, Some pk =>
          if negb (size pk =? crypto_sign_PUBLICKEYBYTES)
          then ret enif_make_badarg
          else
            let* alloc := enif_alloc_binary (size sm) in
            match alloc with
            | None => ret (nacl_error_tuple "alloc_failed")
            | Some m =>
                let* opened := call "crypto_sign_open" (crypto_sign_open sm pk) in
                if 0 =? fst opened
                then
                  let mlen := snd (snd opened) in
                  ret (enif_make_sub_binary (write m (fst (snd opened))) 0 mlen)
                else
                  let* _ := enif_release_binary in
                  ret (nacl_error_tuple "failed_verification")
            end
      | _, _ => ret enif_make_badarg
      end
  | _ => ret enif_make_badarg
  end.

(* Secret key cryptography *)

Definition enif_crypto_secretbox_NONCEBYTES : nif := fun _ =>
  ret (Value (enif_make_int64 crypto_secretbox_NONCEBYTES)).

Definition enif_crypto_secretbox_KEYBYTES : nif := fun _ =>
  ret (Value (enif_make_int64 crypto_secretbox_KEYBYTES)).

Definition enif_crypto_secretbox_ZEROBYTES : nif := fun _ =>
  ret (Value (enif_make_int64 crypto_secretbox_ZEROBYTES)).

Definition enif_crypto_secretbox_BOXZEROBYTES : nif := fun _ =>
  ret (Value (enif_make_int64 crypto_secretbox_BOXZEROBYTES)).

Definition enif_crypto_stream_KEYBYTES : nif := fun _ =>
  ret (Value (enif_make_int64 crypto_stream_KEYBYTES)).

Definition enif_crypto_stream_NONCEBYTES : nif := fun _ =>
  ret (Value (enif_make_int64 crypto_stream_NONCEBYTES)).

Definition enif_crypto_auth_BYTES : nif := fun _ =>
  ret (Value (enif_make_int64 crypto_auth_BYTES)).

Definition enif_crypto_auth_KEYBYTES : nif := fun _ =>
  ret (Value (enif_make_int64 crypto_auth_KEYBYTES)).

Definition enif_crypto_onetimeauth_BYTES : nif := fun _ =>
  ret (Value (enif_make_int64 crypto_onetimeauth_BYTES)).

Definition enif_crypto_onetimeauth_KEYBYTES : nif := fun _ =>
  ret (Value (enif_make_int64 crypto_onetimeauth_KEYBYTES)).

Definition enif_crypto_secretbox : nif := fun argv =>
  match argv with
  | [a0; a1; a2] =>
      match enif_inspect_iolist_as_binary a0, enif_inspect_binary a1,
            enif_inspect_binary a2 with
      | Some padded_msg, Some nonce, Some key =>
          if negb (size key =? crypto_secretbox_KEYBYTES)
             || negb (size nonce =? crypto_secretbox_NONCEBYTES)
             || (size padded_msg <? crypto_secretbox_ZEROBYTES)
          then ret enif_make_badarg
          else
            let* alloc := enif_alloc_binary (size padded_msg) in
            match alloc with
            | None => ret (nacl_error_tuple "alloc_failed")
            | Some padded_ciphertext =>
                let* out :=
                  call "crypto_secretbox" (crypto_secretbox padded_msg nonce key) in
                ret (enif_make_sub_binary
                       (write padded_ciphertext out)
                       crypto_secretbox_BOXZEROBYTES
                       (size_sub (size padded_msg) crypto_secretbox_BOXZEROBYTES))
            end
      | _, _, _ => ret enif_make_badarg
      end
  | _ => ret enif_make_badarg
  end.

Definition enif_crypto_secretbox_open : nif := fun argv =>
  match argv with
  | [a0; a1; a2] =>
      match enif_inspect_iolist_as_binary a0, enif_inspect_binary a1,
            enif_inspect_binary a2 with
      | Some padded_ciphertext, Some nonce, Some key =>
          if negb (size key =? crypto_secretbox_KEYBYTES)
             || negb (size nonce =? crypto_secretbox_NONCEBYTES)
             || (size padded_ciphertext <? crypto_secretbox_BOXZEROBYTES)
          then ret enif_make_badarg
          else
            let* alloc := enif_alloc_binary (size padded_ciphertext) in
            match alloc with
            | None => ret (nacl_error_tuple "alloc_failed")
            | Some padded_msg =>
                let* opened :=
                  call "crypto_secretbox_open"
                       (crypto_secretbox_open padded_ciphertext nonce key) in
                if negb (fst opened =? 0)
                then
                  let* _ := enif_release_binary in
                  ret (nacl_error_tuple "failed_verification")
                else
                  ret (enif_make_sub_binary
                         (write padded_msg (snd opened))
                         crypto_secretbox_ZEROBYTES
                         (size_sub (size padded_ciphertext) crypto_secretbox_ZEROBYTES))
            end
      | _, _, _ => ret enif_make_badarg
      end
  | _ => ret enif_make_badarg
  end.

Definition enif_crypto_stream : nif := fun argv =>
  match argv with
  | [a0; a1; a2] =>
      match enif_get_uint64 a0, enif_inspect_binary a1, enif_inspect_binary a2 with
      | Some clen, Some n, Some k =>
          if negb (size k =? crypto_stream_KEYBYTES)
             || negb (size n =? crypto_stream_NONCEBYTES)
          then ret enif_make_badarg
          else
            let* alloc := enif_alloc_binary clen in
            match alloc with
            | None => ret (nacl_error_tuple "alloc_failed")
            | Some c =>
                let* out := call "crypto_stream" (crypto_stream (size c) n k) in
                ret (Value (enif_make_binary (write c out)))
            end
      | _, _, _ => ret enif_make_badarg
      end
  | _ => ret enif_make_badarg
  end.

Definition enif_crypto_stream_xor : nif := fun argv =>
  match argv with
  | [a0; a1; a2] =>
      match enif_inspect_iolist_as_binary a0, enif_inspect_binary a1,
            enif_inspect_binary a2 with
      | Some m, Some n, Some k =>
          if negb (size k =? crypto_stream_KEYBYTES)
             || negb (size n =? crypto_stream_NONCEBYTES)
          then ret enif_make_badarg
          else
            let* alloc := enif_alloc_binary (size m) in
            match alloc with
            | None => ret (nacl_error_tuple "alloc_failed")
            | Some c =>
                let* out := call "crypto_stream_xor" (crypto_stream_xor m n k) in
                ret (Value (enif_make_binary (write c out)))
            end
      | _, _, _ => ret enif_make_badarg
      end
  | _ => ret enif_make_badarg
  end.

Definition enif_crypto_auth : nif := fun argv =>
  match argv with
  | [a0; a1] =>
      match enif_inspect_iolist_as_binary a0, enif_inspect_binary a1 with
      | Some m, Some k =>
          if negb (size k =? crypto_auth_KEYBYTES)
          then ret enif_make_badarg
          else
            let* alloc := enif_alloc_binary crypto_auth_BYTES in
            match alloc with
            | None => ret (nacl_error_tuple "alloc_failed")
            | Some a =>
                let* out := call "crypto_auth" (crypto_auth m k) in
                ret (Value (enif_make_binary (write a out)))
            end
      | _, _ => ret enif_make_badarg
      end
  | _ => ret enif_make_badarg
  end.

Definition enif_crypto_auth_verify : nif := fun argv =>
  match argv with
  | [a0; a1; a2] =>
      match enif_inspect_binary a0, enif_inspect_iolist_as_binary a1,
            enif_inspect_binary a2 with
      | Some a, Some m, Some k =>
          if negb (size k =? crypto_auth_KEYBYTES)
             || negb (size a =? crypto_auth_BYTES)
          then ret enif_make_badarg
          else
            let* rc := call "crypto_auth_verify" (crypto_auth_verify a m k) in
            if 0 =? rc
            then ret (Value (enif_make_atom "true"))
            else ret (Value (enif_make_atom "false"))
      | _, _, _ => ret enif_make_badarg
      end
  | _ => ret enif_make_badarg
  end.

Definition enif_crypto_onetimeauth : nif := fun argv =>
  match argv with
  | [a0; a1] =>
      match enif_inspect_iolist_as_binary a0, enif_inspect_binary a1 with
      | Some m, Some k =>
          if negb (size k =? crypto_onetimeauth_KEYBYTES)
          then ret enif_make_badarg
          else
            let* alloc := enif_alloc_binary crypto_onetimeauth_BYTES in
            match alloc with
            | None => ret (nacl_error_tuple "alloc_failed")
            | Some a =>
                let* out := call "crypto_onetimeauth" (crypto_onetimeauth m k) in
                ret (Value (enif_make_binary (write a out)))
            end
      | _, _ => ret enif_make_badarg
      end
  | _ => ret enif_make_badarg
  end.

Definition enif_crypto_onetimeauth_verify : nif := fun argv =>
  match argv with
  | [a0; a1; a2] =>
      match enif_inspect_binary a0, enif_inspect_iolist_as_binary a1,
            enif_inspect_binary a2 with
      | Some a, Some m, Some k =>
          if negb (size k =? crypto_onetimeauth_KEYBYTES)
             || negb (size a =? crypto_onetimeauth_BYTES)
          then ret enif_make_badarg
          else
            let* rc :=
              call "crypto_onetimeauth_verify" (crypto_onetimeauth_verify a m k) in
            if 0 =? rc
            then ret (Value (enif_make_atom "true"))
            else ret (Value (enif_make_atom "false"))
      | _, _, _ => ret enif_make_badarg
      end
  | _ => ret enif_make_badarg
  end.

End Nifs.

(** ** The table handed to the Erlang world *)

(** The addresses of the C functions. *)
Inductive fn : Type :=
| fn_crypto_box_NONCEBYTES | fn_crypto_box_ZEROBYTES | fn_crypto_box_BOXZEROBYTES
| fn_crypto_box_PUBLICKEYBYTES | fn_crypto_box_SECRETKEYBYTES
| fn_crypto_box_keypair | fn_crypto_box | fn_crypto_box_open
| fn_crypto_sign_PUBLICKEYBYTES | fn_crypto_sign_SECRETKEYBYTES
| fn_crypto_sign_keypair | fn_crypto_sign | fn_crypto_sign_open
| fn_crypto_secretbox_NONCEBYTES | fn_crypto_secretbox_ZEROBYTES
| fn_crypto_secretbox_BOXZEROBYTES | fn_crypto_secretbox_KEYBYTES
| fn_crypto_secretbox | fn_crypto_secretbox_open
| fn_crypto_stream_KEYBYTES | fn_crypto_stream_NONCEBYTES
| fn_crypto_stream | fn_crypto_stream_xor
| fn_crypto_auth_BYTES | fn_crypto_auth_KEYBYTES
| fn_crypto_auth | fn_crypto_auth_verify
| fn_crypto_onetimeauth_BYTES | fn_crypto_onetimeauth_KEYBYTES
| fn_crypto_onetimeauth | fn_crypto_onetimeauth_verify
| fn_crypto_hash | fn_crypto_verify_16 | fn_crypto_verify_32.

Definition fn_eq_dec (f g : fn) : {f = g} + {f <> g}.
Proof. decide equality. Defined.

(** The function at an address. *)
Definition deref {sodium : Sodium} (f : fn) : nif :=
  match f with
  | fn_crypto_box_NONCEBYTES => enif_crypto_box_NONCEBYTES
  | fn_crypto_box_ZEROBYTES => enif_crypto_box_ZEROBYTES
  | fn_crypto_box_BOXZEROBYTES => enif_crypto_box_BOXZEROBYTES
  | fn_crypto_box_PUBLICKEYBYTES => enif_crypto_box_PUBLICKEYBYTES
  | fn_crypto_box_SECRETKEYBYTES => enif_crypto_box_SECRETKEYBYTES
  | fn_crypto_box_keypair => enif_crypto_box_keypair
  | fn_crypto_box => enif_crypto_box
  | fn_crypto_box_open => enif_crypto_box_open
  | fn_crypto_sign_PUBLICKEYBYTES => enif_crypto_sign_PUBLICKEYBYTES
  | fn_crypto_sign_SECRETKEYBYTES => enif_crypto_sign_SECRETKEYBYTES
  | fn_crypto_sign_keypair => enif_crypto_sign_keypair
  | fn_crypto_sign => enif_crypto_sign
  | fn_crypto_sign_open => enif_crypto_sign_open
  | fn_crypto_secretbox_NONCEBYTES => enif_crypto_secretbox_NONCEBYTES
  | fn_crypto_secretbox_ZEROBYTES => enif_crypto_secretbox_ZEROBYTES
  | fn_crypto_secretbox_BOXZEROBYTES => enif_crypto_secretbox_BOXZEROBYTES
  | fn_crypto_secretbox_KEYBYTES => enif_crypto_secretbox_KEYBYTES
  | fn_crypto_secretbox => enif_crypto_secretbox
  | fn_crypto_secretbox_open => enif_crypto_secretbox_open
  | fn_crypto_stream_KEYBYTES => enif_crypto_stream_KEYBYTES
  | fn_crypto_stream_NONCEBYTES => enif_crypto_stream_NONCEBYTES
  | fn_crypto_stream => enif_crypto_stream
  | fn_crypto_stream_xor => enif_crypto_stream_xor
  | fn_crypto_auth_BYTES => enif_crypto_auth_BYTES
  | fn_crypto_auth_KEYBYTES => enif_crypto_auth_KEYBYTES
  | fn_crypto_auth => enif_crypto_auth
  | fn_crypto_auth_verify => enif_crypto_auth_verify
  | fn_crypto_onetimeauth_BYTES => enif_crypto_onetimeauth_BYTES
  | fn_crypto_onetimeauth_KEYBYTES => enif_crypto_onetimeauth_KEYBYTES
  | fn_crypto_onetimeauth => enif_crypto_onetimeauth
  | fn_crypto_onetimeauth_verify => enif_crypto_onetimeauth_verify
  | fn_crypto_hash => enif_crypto_hash
  | fn_crypto_verify_16 => enif_crypto_verify_16
  | fn_crypto_verify_32 => enif_crypto_verify_32
  end.

Record ErlNifFunc : Type := mkFunc {
  name : string;
  arity : nat;
  fptr : fn;
  flags : Z
}.

(** [erl_nif.h]: the values of [ErlNifDirtyTaskFlags]. *)
Definition ERL_NIF_DIRTY_JOB_CPU_BOUND : Z := 1.
Definition ERL_NIF_DIRTY_JOB_IO_BOUND : Z := 2.

(** An initialiser of three members leaves [flags] zero. *)
Definition nif_funcs : list ErlNifFunc := [
  mkFunc "crypto_box_NONCEBYTES" 0 fn_crypto_box_NONCEBYTES 0;
  mkFunc "crypto_box_ZEROBYTES" 0 fn_crypto_box_ZEROBYTES 0;
  mkFunc "crypto_box_BOXZEROBYTES" 0 fn_crypto_box_BOXZEROBYTES 0;
  mkFunc "crypto_box_PUBLICKEYBYTES" 0 fn_crypto_box_PUBLICKEYBYTES 0;
  mkFunc "crypto_box_SECRETKEYBYTES" 0 fn_crypto_box_SECRETKEYBYTES 0;
  mkFunc "crypto_box_keypair" 0 fn_crypto_box_keypair 0;
  mkFunc "crypto_box_b" 4 fn_crypto_box 0;
  mkFunc "crypto_box" 4 fn_crypto_box ERL_NIF_DIRTY_JOB_CPU_BOUND;
  mkFunc "crypto_box_open_b" 4 fn_crypto_box_open 0;
  mkFunc "crypto_box_open" 4 fn_crypto_box_open ERL_NIF_DIRTY_JOB_CPU_BOUND;

  mkFunc "crypto_sign_PUBLICKEYBYTES" 0 fn_crypto_sign_PUBLICKEYBYTES 0;
  mkFunc "crypto_sign_SECRETKEYBYTES" 0 fn_crypto_sign_SECRETKEYBYTES 0;
  mkFunc "crypto_sign_keypair" 0 fn_crypto_sign_keypair 0;
  mkFunc "crypto_sign_b" 2 fn_crypto_sign 0;
  mkFunc "crypto_sign" 2 fn_crypto_sign ERL_NIF_DIRTY_JOB_CPU_BOUND;
  mkFunc "crypto_sign_open_b" 2 fn_crypto_sign_open 0;
  mkFunc "crypto_sign_open" 2 fn_crypto_sign_open ERL_NIF_DIRTY_JOB_CPU_BOUND;

  mkFunc "crypto_secretbox_NONCEBYTES" 0 fn_crypto_secretbox_NONCEBYTES 0;
  mkFunc "crypto_secretbox_ZEROBYTES" 0 fn_crypto_secretbox_ZEROBYTES 0;
  mkFunc "crypto_secretbox_BOXZEROBYTES" 0 fn_crypto_secretbox_BOXZEROBYTES 0;
  mkFunc "crypto_secretbox_KEYBYTES" 0 fn_crypto_secretbox_KEYBYTES 0;
  mkFunc "crypto_secretbox_b" 3 fn_crypto_secretbox 0;
  mkFunc "crypto_secretbox" 3 fn_crypto_secretbox ERL_NIF_DIRTY_JOB_CPU_BOUND;
  mkFunc "crypto_secretbox_open_b" 3 fn_crypto_secretbox_open 0;
  mkFunc "crypto_secretbox_open" 3 fn_crypto_secretbox_open ERL_NIF_DIRTY_JOB_CPU_BOUND;

  mkFunc "crypto_stream_KEYBYTES" 0 fn_crypto_stream_KEYBYTES 0;
  mkFunc "crypto_stream_NONCEBYTES" 0 fn_crypto_stream_NONCEBYTES 0;
  mkFunc "crypto_stream_b" 3 fn_crypto_stream 0;
  mkFunc "crypto_stream" 3 fn_crypto_stream ERL_NIF_DIRTY_JOB_CPU_BOUND;
  mkFunc "crypto_stream_xor_b" 3 fn_crypto_stream_xor 0;
  mkFunc "crypto_stream_xor" 3 fn_crypto_stream_xor ERL_NIF_DIRTY_JOB_CPU_BOUND;

  mkFunc "crypto_auth_BYTES" 0 fn_crypto_auth_BYTES 0;
  mkFunc "crypto_auth_KEYBYTES" 0 fn_crypto_auth_KEYBYTES 0;
  mkFunc "crypto_auth_b" 2 fn_crypto_auth 0;
  mkFunc "crypto_auth" 2 fn_crypto_auth ERL_NIF_DIRTY_JOB_CPU_BOUND;
  mkFunc "crypto_auth_verify_b" 3 fn_crypto_auth_verify 0;
  mkFunc "crypto_auth_verify" 3 fn_crypto_auth_verify ERL_NIF_DIRTY_JOB_CPU_BOUND;

  mkFunc "crypto_onetimeauth_BYTES" 0 fn_crypto_onetimeauth_BYTES 0;
  mkFunc "crypto_onetimeauth_KEYBYTES" 0 fn_crypto_onetimeauth_KEYBYTES 0;
  mkFunc "crypto_onetimeauth_b" 2 fn_crypto_onetimeauth 0;
  mkFunc "crypto_onetimeauth" 2 fn_crypto_onetimeauth ERL_NIF_DIRTY_JOB_CPU_BOUND;
  mkFunc "crypto_onetimeauth_verify_b" 3 fn_crypto_onetimeauth_verify 0;
  mkFunc "crypto_onetimeauth_verify" 3 fn_crypto_onetimeauth_verify
         ERL_NIF_DIRTY_JOB_CPU_BOUND;

  mkFunc "crypto_hash_b" 1 fn_crypto_hash 0;
  mkFunc "crypto_hash" 1 fn_crypto_hash ERL_NIF_DIRTY_JOB_CPU_BOUND;
  mkFunc "crypto_verify_16" 2 fn_crypto_verify_16 0;
  mkFunc "crypto_verify_32" 2 fn_crypto_verify_32 0
].

(** ** The runtime's side of the table *)

(** Where the runtime runs a NIF: on the scheduler thread of the calling
    process, or as a dirty job on one of the dirty scheduler threads. *)
Inductive scheduler : Type :=
| Normal
| DirtyCpu
| DirtyIo.

Definition scheduler_of (f : ErlNifFunc) : scheduler :=
  if flags f =? ERL_NIF_DIRTY_JOB_CPU_BOUND then DirtyCpu
  else if flags f =? ERL_NIF_DIRTY_JOB_IO_BOUND then DirtyIo
  else Normal.

(** The entry a call of [enacl_nif:fname/argc] resolves to. *)
Definition find_nif (fname : string) (argc : nat) : option ErlNifFunc :=
  find (fun f => String.eqb (name f) fname && Nat.eqb (arity f) argc) nif_funcs.

(** A call from Erlang: nothing when the module has no such function,
    else the scheduler that runs the C function and what the run gives. *)
Definition enacl_nif_call {sodium : Sodium} (fname : string)
    (argv : list ERL_NIF_TERM) (w : world) : option (scheduler * (outcome * world)) :=
  match find_nif fname (List.length argv) with
  | None => None
  | Some f => Some (scheduler_of f, deref (fptr f) argv w)
  end.

(** ** The argument contract of the NIFs *)

Inductive role : Type := Key | Nonce | Authenticator | Operand.

(** What a NIF asks of one slot of [argv], read off its two guards. *)
Inductive param : Type :=
| Iolist (min : Z)            (* an iolist of at least [min] bytes *)
| Flat (r : role) (len : Z)   (* a binary of exactly [len] bytes *)
| UInt64.                     (* an unsigned 64-bit integer *)

Inductive arg : Type :=
| Bytes (b : ErlNifBinary)
| Num (z : Z).

Definition decode1 (p : param) (t : ERL_NIF_TERM) : option arg :=
  match p with
  | Iolist min =>
      match enif_inspect_iolist_as_binary t with
      | Some b => if size b <? min then None else Some (Bytes b)
      | None => None
      end
  | Flat _ len =>
      match enif_inspect_binary t with
      | Some b => if size b =? len then Some (Bytes b) else None
      | None => None
      end
  | UInt64 => option_map Num (enif_get_uint64 t)
  end.

Fixpoint decode (ps : list param) (argv : list ERL_NIF_TERM) : option (list arg) :=
  match ps, argv with
  | [], [] => Some []
  | p :: ps', t :: argv' =>
      match decode1 p t, decode ps' argv' with
      | Some a, Some rest => Some (a :: rest)
      | _, _ => None
      end
  | _, _ => None
  end.

(** One parameter per slot, for every NIF that checks its arguments; the
    size getters check nothing. *)
Definition primitive_spec (f : fn) : option (list param) :=
  match f with
  | fn_crypto_hash => Some [Iolist 0]
  | fn_crypto_verify_16 => Some [Flat Operand 16; Flat Operand 16]
  | fn_crypto_verify_32 => Some [Flat Operand 32; Flat Operand 32]
  | fn_crypto_box_keypair => Some []
  | fn_crypto_box =>
      Some [Iolist crypto_box_ZEROBYTES; Flat Nonce crypto_box_NONCEBYTES;
            Flat Key crypto_box_PUBLICKEYBYTES; Flat Key crypto_box_SECRETKEYBYTES]
  | fn_crypto_box_open =>
      Some [Iolist crypto_box_BOXZEROBYTES; Flat Nonce crypto_box_NONCEBYTES;
            Flat Key crypto_box_PUBLICKEYBYTES; Flat Key crypto_box_SECRETKEYBYTES]
  | fn_crypto_sign_keypair => Some []
  | fn_crypto_sign => Some [Iolist 0; Flat Key crypto_sign_SECRETKEYBYTES]
  | fn_crypto_sign_open => Some [Iolist 0; Flat Key crypto_sign_PUBLICKEYBYTES]
  | fn_crypto_secretbox =>
      Some [Iolist crypto_secretbox_ZEROBYTES; Flat Nonce crypto_secretbox_NONCEBYTES;
            Flat Key crypto_secretbox_KEYBYTES]
  | fn_crypto_secretbox_open =>
      Some [Iolist crypto_secretbox_BOXZEROBYTES;
            Flat Nonce crypto_secretbox_NONCEBYTES; Flat Key crypto_secretbox_KEYBYTES]
  | fn_crypto_stream =>
      Some [UInt64; Flat Nonce crypto_stream_NONCEBYTES; Flat Key crypto_stream_KEYBYTES]
  | fn_crypto_stream_xor =>
      Some [Iolist 0; Flat Nonce crypto_stream_NONCEBYTES;
            Flat Key crypto_stream_KEYBYTES]
  | fn_crypto_auth => Some [Iolist 0; Flat Key crypto_auth_KEYBYTES]
  | fn_crypto_auth_verify =>
      Some [Flat Authenticator crypto_auth_BYTES; Iolist 0;
            Flat Key crypto_auth_KEYBYTES]
  | fn_crypto_onetimeauth => Some [Iolist 0; Flat Key crypto_onetimeauth_KEYBYTES]
  | fn_crypto_onetimeauth_verify =>
      Some [Flat Authenticator crypto_onetimeauth_BYTES; Iolist 0;
            Flat Key crypto_onetimeauth_KEYBYTES]
  | _ => None
  end.

(** The arguments of a call as the NIF reads them, when they meet its
    contract. *)
Definition validated (f : fn) (argv : list ERL_NIF_TERM) : option (list arg) :=
  match primitive_spec f with
  | Some ps => decode ps argv
  | None => None
  end.

(** The ways a call can break the contract [ps]: a wrong number of
    arguments, a binary of the wrong length where a fixed length is asked
    (a key, a nonce, an authenticator), something that is no binary there,
    or a padded text below its minimum. *)
Inductive violation (ps : list param) : list ERL_NIF_TERM -> Prop :=
| Wrong_arity argv :
    List.length argv <> List.length ps -> violation ps argv
| Wrong_length pre b post r len :
    nth_error ps (List.length pre) = Some (Flat r len) ->
    size b <> len ->
    violation ps (pre ++ Binary b :: post)
| Not_flat pre t post r len :
    nth_error ps (List.length pre) = Some (Flat r len) ->
    (forall b, t <> Binary b) ->
    violation ps (pre ++ t :: post)
| Short_padding pre t post min b :
    nth_error ps (List.length pre) = Some (Iolist min) ->
    enif_inspect_iolist_as_binary t = Some b ->
    size b < min ->
    violation ps (pre ++ t :: post).

(** The primitives that are registered twice. *)
Definition primitives : list string :=
  ["crypto_box"; "crypto_box_open"; "crypto_sign"; "crypto_sign_open";
   "crypto_secretbox"; "crypto_secretbox_open"; "crypto_stream";
   "crypto_stream_xor"; "crypto_auth"; "crypto_auth_verify";
   "crypto_onetimeauth"; "crypto_onetimeauth_verify"; "crypto_hash"].

(** The entries of the table bound to one C function. *)
Definition entry_points (f : fn) : list ErlNifFunc :=
  filter (fun e => if fn_eq_dec (fptr e) f then true else false) nif_funcs.

(** The status the library reports to the three opening NIFs. *)
Definition verification_status {sodium : Sodium} (f : fn) (args : list arg)
    : option Z :=
  match f, args with
  | fn_crypto_box_open, [Bytes c; Bytes n; Bytes pk; Bytes sk] =>
      Some (fst (crypto_box_open c n pk sk))
  | fn_crypto_secretbox_open, [Bytes c; Bytes n; Bytes k] =>
      Some (fst (crypto_secretbox_open c n k))
  | fn_crypto_sign_open, [Bytes sm; Bytes pk] =>
      Some (fst (crypto_sign_open sm pk))
  | _, _ => None
  end.

(** What an opening NIF may return on a padded ciphertext: one of its
    three failure values, or, from the success path, the sub-binary after
    [ZEROBYTES] bytes of a ciphertext that has at least that many. *)
Definition opens_safely {sodium : Sodium} (f : fn) (ZEROBYTES : Z)
    (argv : list ERL_NIF_TERM) (w : world) : Prop :=
  fst (deref f argv w) = enif_make_badarg
  \/ fst (deref f argv w) = nacl_error_tuple "alloc_failed"
  \/ fst (deref f argv w) = nacl_error_tuple "failed_verification"
  \/ exists padded_ciphertext rest b,
       validated f argv = Some (Bytes padded_ciphertext :: rest)
       /\ ZEROBYTES <= size padded_ciphertext
       /\ fst (deref f argv w) = Value (Binary b)
       /\ size b = size_sub (size padded_ciphertext) ZEROBYTES
       /\ (size padded_ciphertext < 2 ^ 64 ->
           size b = size padded_ciphertext - ZEROBYTES).

(** ** Vocabulary for the remaining NIFs *)

(** The NIFs that answer with the atom [true] or [false]. *)
Definition boolean_nifs : list fn :=
  [fn_crypto_verify_16; fn_crypto_verify_32; fn_crypto_auth_verify;
   fn_crypto_onetimeauth_verify].

(** The NIFs whose output buffer has a size fixed by a macro. *)
Definition fixed_output : list (fn * Z) :=
  [(fn_crypto_hash, crypto_hash_BYTES); (fn_crypto_auth, crypto_auth_BYTES);
   (fn_crypto_onetimeauth, crypto_onetimeauth_BYTES)].

(** The two key generators with the sizes of their buffers. *)
Definition keypair_sizes : list (fn * (Z * Z)) :=
  [(fn_crypto_box_keypair, (crypto_box_PUBLICKEYBYTES, crypto_box_SECRETKEYBYTES));
   (fn_crypto_sign_keypair,
    (crypto_sign_PUBLICKEYBYTES, crypto_sign_SECRETKEYBYTES))].

(** A slot whose size the caller chooses: a message, or a length. *)
Definition variable_size (p : param) : bool :=
  match p with
  | Flat _ _ => false
  | _ => true
  end.

Definition is_dirty (e : ErlNifFunc) : bool :=
  flags e =? ERL_NIF_DIRTY_JOB_CPU_BOUND.

(** The two sealing NIFs with the padding they strip from their result. *)
Definition sealing_nifs : list (fn * Z) :=
  [(fn_crypto_box, crypto_box_BOXZEROBYTES);
   (fn_crypto_secretbox, crypto_secretbox_BOXZEROBYTES)].

(** The status the library reports to the four NIFs that answer yes or
    no. *)
Definition comparison_status {sodium : Sodium} (f : fn) (args : list arg)
    : option Z :=
  match f, args with
  | fn_crypto_verify_16, [Bytes x; Bytes y] => Some (crypto_verify_16 x y)
  | fn_crypto_verify_32, [Bytes x; Bytes y] => Some (crypto_verify_32 x y)
  | fn_crypto_auth_verify, [Bytes a; Bytes m; Bytes k] =>
      Some (crypto_auth_verify a m k)
  | fn_crypto_onetimeauth_verify, [Bytes a; Bytes m; Bytes k] =>
      Some (crypto_onetimeauth_verify a m k)
  | _, _ => None
  end.

(** ** The dispatch policy of the design document *)

(** These definitions follow the words of the specification, not the C
    file, which has no counterpart for them: a linear cost estimate per
    primitive, compared with one global threshold. *)
Module Design.

Record CalibrationEntry : Type := mkEntry {
  fixed_cost : Z;
  per_byte_cost : Z
}.

Definition estimate (c : CalibrationEntry) (input_length : Z) : Z :=
  fixed_cost c + per_byte_cost c * input_length.

Inductive path : Type := Inline | Offload.

Definition classify (BreakoffThreshold cost_units : Z) : path :=
  if cost_units <=? BreakoffThreshold then Inline else Offload.

(** The path the runtime takes for an entry of the table. *)
Definition path_of (e : ErlNifFunc) : path :=
  match scheduler_of e with
  | Normal => Inline
  | _ => Offload
  end.

(** The claimed rule: some calibration table over the primitives, some
    threshold and some measure of the input decide the path of every call
    of every entry. *)
Definition cost_based_dispatch : Prop :=
  exists (calibration : fn -> CalibrationEntry) (BreakoffThreshold : Z)
         (input_length : list ERL_NIF_TERM -> Z),
    forall (e : ErlNifFunc) (argv : list ERL_NIF_TERM),
      In e nif_funcs ->
      path_of e = classify BreakoffThreshold
                    (estimate (calibration (fptr e)) (input_length argv)).

(** The claimed interface: one entry of the table per checked NIF. *)
Definition single_entry_point : Prop :=
  forall (f : fn) (ps : list param),
    primitive_spec f = Some ps -> List.length (entry_points f) = 1%nat.

End Design.

(** ** A stand-in library for concrete runs *)

(** A transparent instance of [Sodium], small enough to run by hand: a box
    is its plaintext in the clear behind a 16-byte tag copied from the key,
    a signature is the first 64 bytes of the secret key, whose first 32
    bytes are the public key. *)
Module Fixture.

Definition bytes_eqb (a b : ErlNifBinary) : bool :=
  if list_eq_dec Byte.byte_eq_dec a b then true else false.

Definition zeros (n : nat) : ErlNifBinary := repeat x00 n.

Definition seal (m tag : ErlNifBinary) : ErlNifBinary :=
  zeros 16 ++ firstn 16 tag ++ skipn 32 m.

Definition unseal (c tag : ErlNifBinary) : Z * ErlNifBinary :=
  if size c <? 32 then (-1, [])
  else if bytes_eqb (firstn 16 (skipn 16 c)) (firstn 16 tag)
       then (0, zeros 32 ++ skipn 32 c)
       else (-1, []).

Definition status (ok : bool) : Z := if ok then 0 else -1.

#[local] Instance sodium : Sodium := {|
  crypto_hash := fun m => zeros 64;
  crypto_verify_16 := fun x y => status (bytes_eqb x y);
  crypto_verify_32 := fun x y => status (bytes_eqb x y);
  crypto_box_keypair := fun seed => (repeat x01 32, repeat x02 32);
  crypto_box := fun m n pk sk => seal m pk;
  crypto_box_open := fun c n pk sk => unseal c pk;
  crypto_sign_keypair := fun seed => (repeat x03 32, repeat x03 64);
  crypto_sign := fun m sk => (firstn 64 sk ++ m, size m + 64);
  crypto_sign_open := fun sm pk =>
    if (64 <=? size sm) && bytes_eqb (firstn 32 sm) pk
    then (0, (skipn 64 sm, size sm - 64))
    else (-1, ([], 0));
  crypto_secretbox := fun m n k => seal m k;
  crypto_secretbox_open := fun c n k => unseal c k;
  crypto_stream := fun clen n k => repeat (hd x00 k) (Z.to_nat clen);
  crypto_stream_xor := fun m n k => m;
  crypto_auth := fun m k => firstn 32 k;
  crypto_auth_verify := fun a m k => status (bytes_eqb a (firstn 32 k));
  crypto_onetimeauth := fun m k => firstn 16 k;
  crypto_onetimeauth_verify := fun a m k => status (bytes_eqb a (firstn 16 k))
|}.

(** A library whose open never refuses. *)
Definition careless : Sodium := {|
  crypto_hash := crypto_hash;
  crypto_verify_16 := crypto_verify_16;
  crypto_verify_32 := crypto_verify_32;
  crypto_box_keypair := crypto_box_keypair;
  crypto_box := crypto_box;
  crypto_box_open := fun c n pk sk => (0, c);
  crypto_sign_keypair := crypto_sign_keypair;
  crypto_sign := crypto_sign;
  crypto_sign_open := crypto_sign_open;
  crypto_secretbox := crypto_secretbox;
  crypto_secretbox_open := fun c n k => (0, c);
  crypto_stream := crypto_stream;
  crypto_stream_xor := crypto_stream_xor;
  crypto_auth := crypto_auth;
  crypto_auth_verify := crypto_auth_verify;
  crypto_onetimeauth := crypto_onetimeauth;
  crypto_onetimeauth_verify := crypto_onetimeauth_verify
|}.

Definition w0 : world := mkWorld [] 0 [].

(** The same world with an allocator that refuses the next request. *)
Definition w_full : world := mkWorld [false] 0 [].

Definition key (x : byte) : ERL_NIF_TERM := Binary (repeat x 32).
Definition nonce : ERL_NIF_TERM := Binary (repeat x07 24).

(** A 34-byte padded message given as an iolist: a 32-byte binary, a
    byte and a one-byte binary in the tail. *)
Definition padded_msg : ERL_NIF_TERM :=
  Cons (Binary (zeros 32)) (Cons (Int 104) (Binary [x69])).

End Fixture.

(** * Properties *)

Create HintDb nifs.

#[local] Hint Unfold deref
  enif_crypto_hash enif_crypto_verify_16 enif_crypto_verify_32
  enif_crypto_box_NONCEBYTES enif_crypto_box_ZEROBYTES enif_crypto_box_BOXZEROBYTES
  enif_crypto_box_PUBLICKEYBYTES enif_crypto_box_SECRETKEYBYTES
  enif_crypto_box_keypair enif_crypto_box enif_crypto_box_open
  enif_crypto_sign_PUBLICKEYBYTES enif_crypto_sign_SECRETKEYBYTES
  enif_crypto_sign_keypair enif_crypto_sign enif_crypto_sign_open
  enif_crypto_secretbox_NONCEBYTES enif_crypto_secretbox_KEYBYTES
  enif_crypto_secretbox_ZEROBYTES enif_crypto_secretbox_BOXZEROBYTES
  enif_crypto_stream_KEYBYTES enif_crypto_stream_NONCEBYTES
  enif_crypto_auth_BYTES enif_crypto_auth_KEYBYTES
  enif_crypto_onetimeauth_BYTES enif_crypto_onetimeauth_KEYBYTES
  enif_crypto_secretbox enif_crypto_secretbox_open
  enif_crypto_stream enif_crypto_stream_xor
  enif_crypto_auth enif_crypto_auth_verify
  enif_crypto_onetimeauth enif_crypto_onetimeauth_verify : nifs.

(** Splits on the answer of one inspection, then of one size test. *)
Ltac split_guard :=
  match goal with
  | |- context [enif_inspect_iolist_as_binary ?t] =>
      destruct (enif_inspect_iolist_as_binary t) eqn:?
  | |- context [enif_inspect_binary ?t] => destruct (enif_inspect_binary t) eqn:?
  | |- context [enif_get_uint64 ?t] => destruct (enif_get_uint64 t) eqn:?
  | |- context [Z.eqb (size ?b) ?n] => destruct (Z.eqb (size b) n) eqn:?
  | |- context [Z.ltb (size ?b) ?n] => destruct (Z.ltb (size b) n) eqn:?
  end.

Lemma size_nonneg (b : ErlNifBinary) : 0 <= size b.
Proof. unfold size. lia. Qed.

Lemma size_not_below_0 (b : ErlNifBinary) : (size b <? 0) = false.
Proof. apply Z.ltb_ge, size_nonneg. Qed.

Lemma skipn_app_length {A : Type} (l l' : list A) :
  skipn (List.length l) (l ++ l') = l'.
Proof. induction l; simpl; auto. Qed.

Lemma skipn_all_length {A : Type} (l : list A) : skipn (List.length l) l = [].
Proof. induction l; simpl; auto. Qed.

(** Runs the monad once the guards are decided. *)
Ltac run :=
  unfold call, call_keypair, enif_release_binary;
  unfold emitted, bind, ret, log, enif_alloc_binary;
  cbn [fst snd trace heap entropy].

Ltac split_if :=
  match goal with
  | |- context [if ?c then _ else _] => destruct c eqn:?
  end.

Section Contract.

Context {sodium : Sodium}.

(** A call that does not meet the contract returns [badarg] and leaves
    the world as it found it. *)
Lemma nonconforming_badarg (f : fn) (ps : list param) (argv : list ERL_NIF_TERM)
    (w : world) :
  primitive_spec f = Some ps ->
  decode ps argv = None ->
  deref f argv w = (Raise_badarg, w).
Proof.
  intros Hs Hd.
  destruct f; simpl in Hs; try discriminate; injection Hs as <-;
    autounfold with nifs;
    repeat (destruct argv as [|? argv]; try reflexivity);
    cbn [decode decode1] in Hd; try discriminate;
    repeat (split_guard; cbn [negb orb option_map] in *; try reflexivity);
    rewrite ?size_not_below_0 in Hd; discriminate.
Qed.

End Contract.

(** ** Contract violations *)

Lemma decode_length (ps : list param) :
  forall argv args, decode ps argv = Some args -> List.length argv = List.length ps.
Proof.
  induction ps as [|p ps IH]; intros [|t argv] args H; simpl in H;
    try discriminate; [reflexivity|].
  destruct (decode1 p t); [|discriminate].
  destruct (decode ps argv) as [rest|] eqn:E; [|discriminate].
  simpl. f_equal. eapply IH. exact E.
Qed.

Lemma decode_slot (pre : list ERL_NIF_TERM) :
  forall ps t post args p,
    decode ps (pre ++ t :: post) = Some args ->
    nth_error ps (List.length pre) = Some p ->
    exists a, decode1 p t = Some a.
Proof.
  induction pre as [|x pre IH]; intros [|q ps] t post args p H Hp;
    simpl in H, Hp; try discriminate.
  - injection Hp as ->. destruct (decode1 p t) as [a|]; [eauto|discriminate].
  - destruct (decode1 q x); [|discriminate].
    destruct (decode ps (pre ++ t :: post)) eqn:E; [|discriminate].
    eapply IH; eauto.
Qed.

Lemma violation_nonconforming (ps : list param) (argv : list ERL_NIF_TERM) :
  violation ps argv -> decode ps argv = None.
Proof.
  intros V. destruct (decode ps argv) as [args|] eqn:E; [exfalso|reflexivity].
  destruct V as [argv Hlen|pre b post r len Hp Hsz|pre t post r len Hp Hnb
                |pre t post min b Hp Hio Hsz].
  - apply decode_length in E. contradiction.
  - destruct (decode_slot _ _ _ _ _ _ E Hp) as [a Ha]. simpl in Ha.
    destruct (size b =? len) eqn:Q; [|discriminate].
    apply Z.eqb_eq in Q. contradiction.
  - destruct (decode_slot _ _ _ _ _ _ E Hp) as [a Ha]. simpl in Ha.
    destruct t; simpl in Ha; try discriminate. eapply Hnb. reflexivity.
  - destruct (decode_slot _ _ _ _ _ _ E Hp) as [a Ha]. simpl in Ha.
    rewrite Hio in Ha. destruct (size b <? min) eqn:Q; [discriminate|].
    apply Z.ltb_ge in Q. lia.
Qed.

Lemma emitted_unchanged {A : Type} (m : M A) (w : world) (a : A) :
  m w = (a, w) -> emitted m w = [].
Proof. intros H. unfold emitted. rewrite H. apply skipn_all_length. Qed.

(** C2: a call that breaks the contract of a NIF -- a wrong number of
    arguments, a key, nonce or authenticator of the wrong length, or a
    padded message or ciphertext below its minimum -- returns [badarg] at
    once: the world is untouched, so nothing was allocated and no
    primitive of the library ran. *)
Theorem contract_violation_rejected {sodium : Sodium} (f : fn) (ps : list param)
    (argv : list ERL_NIF_TERM) (w : world) :
  primitive_spec f = Some ps ->
  violation ps argv ->
  deref f argv w = (enif_make_badarg, w) /\ emitted (deref f argv) w = [].
Proof.
  intros Hs V.
  assert (H : deref f argv w = (Raise_badarg, w))
    by (eapply nonconforming_badarg; eauto using violation_nonconforming).
  split; [exact H|]. eapply emitted_unchanged, H.
Qed.

(** The size getters are outside this contract: they never look at
    [argc] or [argv] and call nothing. *)
Remark size_getters_ignore_arguments {sodium : Sodium} (f : fn)
    (argv : list ERL_NIF_TERM) (w : world) :
  primitive_spec f = None ->
  deref f argv w = deref f [] w /\ exists z, deref f argv w = (Value (Int z), w).
Proof.
  intros H. destruct f; try discriminate H; split; try reflexivity;
    eexists; reflexivity.
Qed.

(** A 31-byte key for [crypto_secretbox]. *)
Lemma contract_violation_rejected_witness :
  deref (sodium := Fixture.sodium) fn_crypto_secretbox
    [Fixture.padded_msg; Fixture.nonce; Binary (repeat x01 31)] Fixture.w0
  = (Raise_badarg, Fixture.w0)
  /\ emitted (deref (sodium := Fixture.sodium) fn_crypto_secretbox
       [Fixture.padded_msg; Fixture.nonce; Binary (repeat x01 31)]) Fixture.w0 = [].
Proof.
  apply (contract_violation_rejected (sodium := Fixture.sodium) fn_crypto_secretbox
           [Iolist crypto_secretbox_ZEROBYTES; Flat Nonce crypto_secretbox_NONCEBYTES;
            Flat Key crypto_secretbox_KEYBYTES]).
  - reflexivity.
  - apply (Wrong_length _ [Fixture.padded_msg; Fixture.nonce] (repeat x01 31) []
             Key crypto_secretbox_KEYBYTES).
    + reflexivity.
    + vm_compute. discriminate.
Defined.

(** ** Allocation failure *)



(** ** Flat and deep arguments *)

(** Case analysis for a call that meets the contract of its NIF: given
    [Hs : primitive_spec f = Some ps] and [Hd : decode ps argv = Some args],
    leaves one goal per NIF, past its two guards.  [guard_cases] is the
    same for a NIF that is already known. *)
Ltac guard_cases argv Hd :=
  pose proof (decode_length _ _ _ Hd) as Hlen;
  do 5 try (destruct argv as [|? argv]); try discriminate Hlen; clear Hlen;
  cbn [decode decode1] in Hd;
  autounfold with nifs;
  repeat split_guard; cbn [negb orb];
  rewrite ?size_not_below_0 in Hd;
  repeat match type of Hd with
         | context [Z.eqb (size ?b) ?n] => destruct (Z.eqb (size b) n) eqn:?
         | context [Z.ltb (size ?b) ?n] => destruct (Z.ltb (size b) n) eqn:?
         end;
  cbn [option_map] in Hd; cbv beta iota in Hd; try discriminate Hd.

Ltac conforming_cases f argv Hs Hd :=
  destruct f; simpl in Hs; try discriminate Hs; injection Hs as <-;
  guard_cases argv Hd.

(** A call that meets the contract is not turned away. *)
Lemma conforming_accepted {sodium : Sodium} (f : fn) (ps : list param)
    (argv : list ERL_NIF_TERM) (args : list arg) (w : world) :
  primitive_spec f = Some ps ->
  decode ps argv = Some args ->
  fst (deref f argv w) <> Raise_badarg.
Proof.
  intros Hs Hd.
  conforming_cases f argv Hs Hd; run;
    repeat (split_if; cbn [fst snd]);
    unfold nacl_error_tuple, enif_make_sub_binary;
    repeat (split_if; cbn [fst snd]); discriminate.
Qed.

(** In the slot of a message an iolist decodes as its flattened binary. *)
Lemma decode_flattened (pre : list ERL_NIF_TERM) :
  forall (ps : list param) (post : list ERL_NIF_TERM) (t : ERL_NIF_TERM)
         (min : Z) (b : ErlNifBinary),
    nth_error ps (List.length pre) = Some (Iolist min) ->
    enif_inspect_iolist_as_binary t = Some b ->
    decode ps (pre ++ t :: post) = decode ps (pre ++ Binary b :: post).
Proof.
  induction pre as [|x pre IH]; intros [|q ps] post t min b Hp Ht;
    cbn [List.length nth_error] in Hp; try discriminate Hp; cbn [app decode].
  - injection Hp as ->. cbn [decode1 enif_inspect_iolist_as_binary].
    rewrite Ht. reflexivity.
  - rewrite (IH ps post t min b Hp Ht). reflexivity.
Qed.

Lemma not_flat_badarg {sodium : Sodium} (f : fn) (ps : list param)
    (pre post : list ERL_NIF_TERM) (t : ERL_NIF_TERM) (r : role) (len : Z)
    (w : world) :
  primitive_spec f = Some ps ->
  nth_error ps (List.length pre) = Some (Flat r len) ->
  (forall b, t <> Binary b) ->
  deref f (pre ++ t :: post) w = (Raise_badarg, w).
Proof.
  intros Hs Hp Ht. eapply nonconforming_badarg; [exact Hs|].
  apply violation_nonconforming. eapply Not_flat; eauto.
Qed.

Lemma iolist_flattened {sodium : Sodium} (f : fn) (ps : list param)
    (pre post : list ERL_NIF_TERM) (t : ERL_NIF_TERM) (min : Z) (b : ErlNifBinary)
    (w : world) :
  primitive_spec f = Some ps ->
  nth_error ps (List.length pre) = Some (Iolist min) ->
  enif_inspect_iolist_as_binary t = Some b ->
  deref f (pre ++ t :: post) w = deref f (pre ++ Binary b :: post) w.
Proof.
  intros Hs Hp Ht.
  destruct f; simpl in Hs; try discriminate; injection Hs as <-;
    do 5 try (destruct pre as [|? pre]); simpl in Hp; try discriminate;
    autounfold with nifs; cbn [app];
    do 4 try (destruct post as [|? post]);
    cbn [enif_inspect_iolist_as_binary]; rewrite ?Ht; reflexivity.
Qed.

(** C10: in the slot of a message or ciphertext any iolist is accepted:
    the call meets the contract exactly when the call on the flattened
    binary does, it is then not answered [badarg], and the NIF behaves as
    on the flattened binary.  In the slot of a key, a nonce or an
    authenticator only a binary does: any other term there, an iolist that
    would flatten to the right length included, makes the call return
    [badarg]. *)
Theorem iolist_only_for_messages {sodium : Sodium} (f : fn) (ps : list param)
    (pre post : list ERL_NIF_TERM) (t : ERL_NIF_TERM) (w : world) :
  primitive_spec f = Some ps ->
  (forall min b,
      nth_error ps (List.length pre) = Some (Iolist min) ->
      enif_inspect_iolist_as_binary t = Some b ->
      deref f (pre ++ t :: post) w = deref f (pre ++ Binary b :: post) w
      /\ decode ps (pre ++ t :: post) = decode ps (pre ++ Binary b :: post)
      /\ (forall args,
             decode ps (pre ++ t :: post) = Some args ->
             fst (deref f (pre ++ t :: post) w) <> enif_make_badarg))
  /\ (forall r len,
         nth_error ps (List.length pre) = Some (Flat r len) ->
         (forall b, t <> Binary b) ->
         deref f (pre ++ t :: post) w = (enif_make_badarg, w)).
Proof.
  intros Hs. split.
  - intros min b Hp Ht. split; [|split].
    + eapply iolist_flattened; eauto.
    + eapply decode_flattened; eauto.
    + intros args Hd. eapply conforming_accepted; eauto.
  - intros r len Hp Ht. eapply not_flat_badarg; eauto.
Qed.

(** [crypto_secretbox] with its message as an iolist, which is accepted
    and sealed as the flat message is, and with its 32-byte key wrapped in
    a list, which is not. *)
Lemma iolist_only_for_messages_witness :
  deref (sodium := Fixture.sodium) fn_crypto_secretbox
    [Fixture.padded_msg; Fixture.nonce; Fixture.key x01] Fixture.w0
  = deref (sodium := Fixture.sodium) fn_crypto_secretbox
      [Binary (Fixture.zeros 32 ++ [x68; x69]); Fixture.nonce; Fixture.key x01]
      Fixture.w0
  /\ fst (deref (sodium := Fixture.sodium) fn_crypto_secretbox
            [Fixture.padded_msg; Fixture.nonce; Fixture.key x01] Fixture.w0)
     <> enif_make_badarg
  /\ enif_inspect_iolist_as_binary (Cons (Fixture.key x01) Nil)
     = Some (repeat x01 32)
  /\ deref (sodium := Fixture.sodium) fn_crypto_secretbox
       [Fixture.padded_msg; Fixture.nonce; Cons (Fixture.key x01) Nil] Fixture.w0
     = (Raise_badarg, Fixture.w0).
Proof.
  pose proof (proj1 (iolist_only_for_messages (sodium := Fixture.sodium)
                       fn_crypto_secretbox _ [] [Fixture.nonce; Fixture.key x01]
                       Fixture.padded_msg Fixture.w0 eq_refl)
                crypto_secretbox_ZEROBYTES (Fixture.zeros 32 ++ [x68; x69])
                eq_refl eq_refl) as (Hsame & _ & Haccepted).
  split; [exact Hsame|]. split; [|split].
  - apply (Haccepted [Bytes (Fixture.zeros 32 ++ [x68; x69]);
                      Bytes (repeat x07 24); Bytes (repeat x01 32)]).
    reflexivity.
  - reflexivity.
  - apply (proj2 (iolist_only_for_messages (sodium := Fixture.sodium)
                    fn_crypto_secretbox _ [Fixture.padded_msg; Fixture.nonce] []
                    (Cons (Fixture.key x01) Nil) Fixture.w0 eq_refl)
             Key crypto_secretbox_KEYBYTES).
    + reflexivity.
    + intros b. discriminate.
Defined.

(** ** The two entry points of a primitive *)

Lemma registered_twice (p : string) :
  In p primitives ->
  exists k f,
    (forall n, find_nif (p ++ "_b") n
               = if Nat.eqb k n then Some (mkFunc (p ++ "_b") k f 0) else None)
    /\ (forall n, find_nif p n
                  = if Nat.eqb k n
                    then Some (mkFunc p k f ERL_NIF_DIRTY_JOB_CPU_BOUND)
                    else None).
Proof.
  intros H. unfold primitives in H. cbn [In] in H.
  repeat (destruct H as [<-|H]); try contradiction;
    match goal with
    | |- context [find_nif ?p _] =>
        match eval vm_compute in (find (fun e => String.eqb (name e) p) nif_funcs) with
        | Some ?e =>
            let k := eval vm_compute in (arity e) in
            let f := eval vm_compute in (fptr e) in
            exists k, f
        end
    end;
    split; intros n; do 5 (try destruct n as [|n]); reflexivity.
Qed.

(** C1: for each of the thirteen primitives the inline entry [p_b] and the
    dirty entry [p] exist for the same arity, and on the same arguments in
    the same world they return the same outcome and leave the same world:
    the normal scheduler runs the one, a dirty CPU scheduler the other,
    and both run the same C function. *)
Theorem direct_and_offload_agree {sodium : Sodium} (p : string)
    (argv : list ERL_NIF_TERM) (w : world) :
  In p primitives ->
  match enacl_nif_call (p ++ "_b") argv w, enacl_nif_call p argv w with
  | Some (inline, r_inline), Some (offload, r_offload) =>
      inline = Normal /\ offload = DirtyCpu /\ r_inline = r_offload
  | None, None => True
  | _, _ => False
  end
  /\ exists k, forall argv' w',
       List.length argv' = k ->
       enacl_nif_call (p ++ "_b") argv' w' <> None
       /\ enacl_nif_call p argv' w' <> None.
Proof.
  intros H. destruct (registered_twice p H) as (k & f & Hb & Hd).
  unfold enacl_nif_call. split.
  - rewrite Hb, Hd. destruct (Nat.eqb k (List.length argv)); cbn; auto.
  - exists k. intros argv' w' <-. rewrite Hb, Hd, Nat.eqb_refl.
    split; discriminate.
Qed.

(** [crypto_hash_b] and [crypto_hash] on an empty message. *)
Lemma direct_and_offload_agree_witness :
  In "crypto_hash" primitives
  /\ match enacl_nif_call (sodium := Fixture.sodium) ("crypto_hash" ++ "_b") [Nil]
             Fixture.w0,
           enacl_nif_call (sodium := Fixture.sodium) "crypto_hash" [Nil] Fixture.w0
     with
     | Some (inline, r_inline), Some (offload, r_offload) =>
         inline = Normal /\ offload = DirtyCpu /\ r_inline = r_offload
     | None, None => True
     | _, _ => False
     end.
Proof.
  assert (H : In "crypto_hash" primitives) by (unfold primitives; cbn [In]; tauto).
  split; [exact H|].
  exact (proj1 (direct_and_offload_agree (sodium := Fixture.sodium)
                  "crypto_hash" [Nil] Fixture.w0 H)).
Defined.

(** ** How the path is chosen *)

Lemma hash_entries :
  In (mkFunc "crypto_hash_b" 1 fn_crypto_hash 0) nif_funcs
  /\ In (mkFunc "crypto_hash" 1 fn_crypto_hash ERL_NIF_DIRTY_JOB_CPU_BOUND) nif_funcs.
Proof. unfold nif_funcs. split; cbn [In]; tauto. Qed.

(** C4, as stated, fails: no calibration table, threshold and measure of
    the input explain the table, since [crypto_hash_b] and [crypto_hash]
    are the same primitive on the same input and take different paths. *)
Lemma cost_based_dispatch_refuted : ~ Design.cost_based_dispatch.
Proof.
  intros (calibration & threshold & input_length & H).
  destruct hash_entries as [Hb Hd].
  pose proof (H _ [] Hb) as E1. pose proof (H _ [] Hd) as E2.
  cbn [fptr] in E1, E2. rewrite <- E2 in E1. discriminate E1.
Qed.

(** C4, amended: the path of a call is fixed by the entry point that is
    called.  Whatever the arguments and the world, a call of [p_b] runs on
    the normal scheduler and a call of [p] on a dirty CPU scheduler. *)
Theorem path_fixed_by_entry_point {sodium : Sodium} (p : string)
    (argv : list ERL_NIF_TERM) (w : world) :
  In p primitives ->
  (forall s r, enacl_nif_call (p ++ "_b") argv w = Some (s, r) -> s = Normal)
  /\ (forall s r, enacl_nif_call p argv w = Some (s, r) -> s = DirtyCpu).
Proof.
  intros H. destruct (registered_twice p H) as (k & f & Hb & Hd).
  unfold enacl_nif_call. rewrite Hb, Hd.
  destruct (Nat.eqb k (List.length argv)); split; intros s r E;
    try discriminate; injection E as <- _; reflexivity.
Qed.

(** A 34-byte message through both entries of [crypto_secretbox]. *)
Lemma path_fixed_by_entry_point_witness :
  option_map fst (enacl_nif_call (sodium := Fixture.sodium) "crypto_secretbox_b"
                    [Fixture.padded_msg; Fixture.nonce; Fixture.key x01] Fixture.w0)
  = Some Normal
  /\ option_map fst (enacl_nif_call (sodium := Fixture.sodium) "crypto_secretbox"
                       [Fixture.padded_msg; Fixture.nonce; Fixture.key x01]
                       Fixture.w0)
     = Some DirtyCpu.
Proof.
  assert (H : In "crypto_secretbox" primitives)
    by (unfold primitives; cbn [In]; tauto).
  destruct (path_fixed_by_entry_point (sodium := Fixture.sodium) "crypto_secretbox"
              [Fixture.padded_msg; Fixture.nonce; Fixture.key x01] Fixture.w0 H)
    as [Hb Hd].
  split.
  - destruct (enacl_nif_call (sodium := Fixture.sodium) ("crypto_secretbox" ++ "_b")
                [Fixture.padded_msg; Fixture.nonce; Fixture.key x01] Fixture.w0)
      as [[s r]|] eqn:E.
    + change ("crypto_secretbox" ++ "_b")%string with "crypto_secretbox_b" in E.
      rewrite E. cbn. f_equal. eapply Hb. reflexivity.
    + discriminate E.
  - destruct (enacl_nif_call (sodium := Fixture.sodium) "crypto_secretbox"
                [Fixture.padded_msg; Fixture.nonce; Fixture.key x01] Fixture.w0)
      as [[s r]|] eqn:E.
    + cbn. f_equal. eapply Hd. reflexivity.
    + discriminate E.
Defined.

(** ** How many entry points a primitive has *)

(** C5, as stated, fails: [enif_crypto_box] is reachable under two names. *)
Lemma single_entry_point_refuted : ~ Design.single_entry_point.
Proof.
  intros H. specialize (H fn_crypto_box _ eq_refl). vm_compute in H. discriminate H.
Qed.

(** C5, amended: each of the thirteen primitives has exactly two entries
    in the table, [p_b] without flags and [p] flagged as a dirty CPU job,
    of the same arity and bound to the same C function. *)
Theorem two_entry_points_per_primitive (p : string) :
  In p primitives ->
  exists k f,
    entry_points f
    = [mkFunc (p ++ "_b") k f 0; mkFunc p k f ERL_NIF_DIRTY_JOB_CPU_BOUND].
Proof.
  intros H. unfold primitives in H. cbn [In] in H.
  repeat (destruct H as [<-|H]); try contradiction;
    match goal with
    | |- context [mkFunc ?p _ _ ERL_NIF_DIRTY_JOB_CPU_BOUND] =>
        match eval vm_compute in (find (fun e => String.eqb (name e) p) nif_funcs) with
        | Some ?e =>
            let k := eval vm_compute in (arity e) in
            let f := eval vm_compute in (fptr e) in
            exists k, f
        end
    end;
    reflexivity.
Qed.

Lemma two_entry_points_per_primitive_witness :
  exists k f,
    entry_points f
    = [mkFunc ("crypto_box" ++ "_b") k f 0;
       mkFunc "crypto_box" k f ERL_NIF_DIRTY_JOB_CPU_BOUND].
Proof.
  apply (two_entry_points_per_primitive "crypto_box").
  unfold primitives; cbn [In]; tauto.
Defined.

(** ** Buffers and sub-binaries *)

Lemma size_alloc (n : Z) : 0 <= n -> size (repeat x00 (Z.to_nat n)) = n.
Proof. intros H. unfold size. rewrite repeat_length. apply Z2Nat.id, H. Qed.

Lemma size_write (buf out : ErlNifBinary) : size (write buf out) = size buf.
Proof.
  unfold size, write. rewrite length_app, length_firstn, length_skipn. lia.
Qed.

Lemma size_sub_le (a b : Z) :
  b <= a -> 0 <= size_sub a b <= a - b /\ (a < 2 ^ 64 -> 0 <= b -> size_sub a b = a - b).
Proof.
  intros H. unfold size_sub.
  pose proof (Z.mod_pos_bound (a - b) (2 ^ 64) ltac:(lia)).
  pose proof (Z.mod_le (a - b) (2 ^ 64) ltac:(lia) ltac:(lia)).
  split; [lia|]. intros Ha Hb. apply Z.mod_small. lia.
Qed.

Lemma sub_binary_in_range (b : ErlNifBinary) (pos len : Z) :
  0 <= pos -> 0 <= len -> pos + len <= size b ->
  exists sub, enif_make_sub_binary b pos len = Value (Binary sub) /\ size sub = len.
Proof.
  intros Hp Hl Hs. unfold enif_make_sub_binary.
  replace ((0 <=? pos) && (0 <=? len) && (pos + len <=? size b)) with true
    by (symmetry; rewrite !andb_true_iff, !Z.leb_le; auto).
  eexists. split; [reflexivity|].
  unfold size in *. rewrite length_firstn, length_skipn. lia.
Qed.

(** The success path of the two opening NIFs, once the ciphertext is known
    to carry its padding. *)
Lemma opened_sub_binary (c out : ErlNifBinary) (ZEROBYTES : Z) :
  0 <= ZEROBYTES <= size c ->
  exists b,
    enif_make_sub_binary (write (repeat x00 (Z.to_nat (size c))) out)
      ZEROBYTES (size_sub (size c) ZEROBYTES) = Value (Binary b)
    /\ size b = size_sub (size c) ZEROBYTES
    /\ (size c < 2 ^ 64 -> size b = size c - ZEROBYTES).
Proof.
  intros H. destruct (size_sub_le (size c) ZEROBYTES ltac:(lia)) as [Hr He].
  destruct (sub_binary_in_range (write (repeat x00 (Z.to_nat (size c))) out)
              ZEROBYTES (size_sub (size c) ZEROBYTES)) as (b & Eb & Sb);
    try lia.
  - rewrite size_write, size_alloc by apply size_nonneg. lia.
  - exists b. repeat split; auto. intros Hc. rewrite Sb. apply He; lia.
Qed.

(** ** Opening a box *)

Section Opening.

Context {sodium : Sodium}.

Lemma secretbox_open_safely (argv : list ERL_NIF_TERM) (w : world) :
  (forall c n k,
      size c < crypto_secretbox_ZEROBYTES -> fst (crypto_secretbox_open c n k) <> 0) ->
  opens_safely fn_crypto_secretbox_open crypto_secretbox_ZEROBYTES argv w.
Proof.
  intros H. unfold opens_safely, validated. cbn [primitive_spec].
  autounfold with nifs.
  do 4 try (destruct argv as [|? argv]); try (left; reflexivity).
  cbn [decode decode1].
  repeat split_guard; cbn [negb orb]; try (left; reflexivity).
  run. destruct (hd true (heap w)); cbn [fst snd];
    [|right; left; reflexivity].
  match goal with
  | |- context [crypto_secretbox_open ?c ?n ?k] =>
      specialize (H c n k);
      destruct (crypto_secretbox_open c n k) as [rc out]; cbn [fst snd] in *
  end.
  destruct (rc =? 0) eqn:E; cbn [negb fst snd];
    [|right; right; left; reflexivity].
  apply Z.eqb_eq in E.
  match goal with
  | |- context [size_sub (size ?c) _] =>
      assert (Hc : crypto_secretbox_ZEROBYTES <= size c)
        by (destruct (Z.lt_ge_cases (size c) crypto_secretbox_ZEROBYTES);
            [exfalso; apply H; assumption|assumption]);
      destruct (opened_sub_binary c out crypto_secretbox_ZEROBYTES)
        as (b & Eb & Sb & Sx); [unfold crypto_secretbox_ZEROBYTES in *; lia|]
  end.
  right; right; right. do 3 eexists.
  split; [reflexivity|]. split; [exact Hc|]. split; [exact Eb|]. split; assumption.
Qed.

Lemma box_open_safely (argv : list ERL_NIF_TERM) (w : world) :
  (forall c n pk sk,
      size c < crypto_box_ZEROBYTES -> fst (crypto_box_open c n pk sk) <> 0) ->
  opens_safely fn_crypto_box_open crypto_box_ZEROBYTES argv w.
Proof.
  intros H. unfold opens_safely, validated. cbn [primitive_spec].
  autounfold with nifs.
  do 5 try (destruct argv as [|? argv]); try (left; reflexivity).
  cbn [decode decode1].
  repeat split_guard; cbn [negb orb]; try (left; reflexivity).
  run. destruct (hd true (heap w)); cbn [fst snd];
    [|right; left; reflexivity].
  match goal with
  | |- context [crypto_box_open ?c ?n ?pk ?sk] =>
      specialize (H c n pk sk);
      destruct (crypto_box_open c n pk sk) as [rc out]; cbn [fst snd] in *
  end.
  destruct (rc =? 0) eqn:E; cbn [negb fst snd];
    [|right; right; left; reflexivity].
  apply Z.eqb_eq in E.
  match goal with
  | |- context [size_sub (size ?c) _] =>
      assert (Hc : crypto_box_ZEROBYTES <= size c)
        by (destruct (Z.lt_ge_cases (size c) crypto_box_ZEROBYTES);
            [exfalso; apply H; assumption|assumption]);
      destruct (opened_sub_binary c out crypto_box_ZEROBYTES)
        as (b & Eb & Sb & Sx); [unfold crypto_box_ZEROBYTES in *; lia|]
  end.
  right; right; right. do 3 eexists.
  split; [reflexivity|]. split; [exact Hc|]. split; [exact Eb|]. split; assumption.
Qed.

End Opening.

(** C8: if the library's two open primitives refuse every padded
    ciphertext shorter than [ZEROBYTES], then [enif_crypto_secretbox_open]
    and [enif_crypto_box_open] return the sub-binary of their success path
    only for a ciphertext of at least [ZEROBYTES] bytes, although their own
    guard lets through everything from [BOXZEROBYTES] on; the length
    [size - ZEROBYTES] of that sub-binary is then computed without wrapping
    and the sub-binary lies inside the buffer. *)
Theorem open_sub_binary_never_underflows {sodium : Sodium}
    (argv : list ERL_NIF_TERM) (w : world) :
  (forall c n k,
      size c < crypto_secretbox_ZEROBYTES -> fst (crypto_secretbox_open c n k) <> 0) ->
  (forall c n pk sk,
      size c < crypto_box_ZEROBYTES -> fst (crypto_box_open c n pk sk) <> 0) ->
  opens_safely fn_crypto_secretbox_open crypto_secretbox_ZEROBYTES argv w
  /\ opens_safely fn_crypto_box_open crypto_box_ZEROBYTES argv w.
Proof.
  intros Hs Hb. split; [apply secretbox_open_safely, Hs|apply box_open_safely, Hb].
Qed.

Lemma unseal_refuses_short (c tag : ErlNifBinary) :
  size c < 32 -> fst (Fixture.unseal c tag) <> 0.
Proof.
  intros H. unfold Fixture.unseal.
  destruct (size c <? 32) eqn:E; [cbn; discriminate|].
  apply Z.ltb_ge in E. lia.
Qed.

(** A 20-byte ciphertext, which passes the guard of the NIF. *)
Lemma open_sub_binary_never_underflows_witness :
  opens_safely (sodium := Fixture.sodium) fn_crypto_secretbox_open
    crypto_secretbox_ZEROBYTES
    [Binary (Fixture.zeros 20); Fixture.nonce; Fixture.key x01] Fixture.w0
  /\ opens_safely (sodium := Fixture.sodium) fn_crypto_box_open
       crypto_box_ZEROBYTES
       [Binary (Fixture.zeros 20); Fixture.nonce; Fixture.key x01] Fixture.w0.
Proof.
  apply (open_sub_binary_never_underflows (sodium := Fixture.sodium)
           [Binary (Fixture.zeros 20); Fixture.nonce; Fixture.key x01] Fixture.w0).
  - intros c n k. apply unseal_refuses_short.
  - intros c n pk sk. apply unseal_refuses_short.
Defined.

(** The assumption on the library is needed: with an open that accepts
    the same 20-byte ciphertext, the sub-binary is out of range. *)
Remark careless_open_underflows :
  fst (enif_crypto_secretbox_open (sodium := Fixture.careless)
         [Binary (Fixture.zeros 20); Fixture.nonce; Fixture.key x01] Fixture.w0)
  = Undefined.
Proof. vm_compute. reflexivity. Qed.

(** ** Verification failure *)

(** Case analysis for a call of an opening NIF that meets its contract:
    given [Hv : validated f argv = Some args] and
    [Hs : verification_status f args = Some rc], leaves one goal per NIF,
    past its guards. *)
Ltac opening_cases f argv Hv Hs :=
  destruct f; try (cbn in Hs; discriminate Hs);
  unfold validated in Hv; cbn [primitive_spec] in Hv;
  pose proof (decode_length _ _ _ Hv) as Hlen;
  do 5 try (destruct argv as [|? argv]); try discriminate Hlen; clear Hlen;
  cbn [decode decode1] in Hv;
  autounfold with nifs;
  repeat split_guard; cbn [negb orb];
  rewrite ?size_not_below_0 in Hv;
  repeat match type of Hv with
         | context [Z.eqb (size ?b) ?n] => destruct (Z.eqb (size b) n) eqn:?
         | context [Z.ltb (size ?b) ?n] => destruct (Z.ltb (size b) n) eqn:?
         end;
  cbv beta iota in Hv; try discriminate Hv;
  injection Hv as <-; cbn in Hs; injection Hs as <-.

(** C3: when the arguments of [box_open], [secretbox_open] or [sign_open]
    meet the contract, the buffer is granted and the library reports any
    nonzero status, the NIF calls the library once, releases the buffer and
    returns the one value [{error, failed_verification}], whatever that
    status is; the value is neither the [badarg] exception nor the binary
    of a success, nor the value of a refused allocation. *)
Theorem verification_failure_is_one_value {sodium : Sodium} (f : fn)
    (argv : list ERL_NIF_TERM) (args : list arg) (rc : Z) (w : world) :
  validated f argv = Some args ->
  verification_status f args = Some rc ->
  rc <> 0 ->
  hd true (heap w) = true ->
  fst (deref f argv w) = nacl_error_tuple "failed_verification"
  /\ (exists n p, emitted (deref f argv) w = [Alloc n true; Call p; Release])
  /\ nacl_error_tuple "failed_verification" <> enif_make_badarg
  /\ (forall b, nacl_error_tuple "failed_verification" <> Value (Binary b))
  /\ nacl_error_tuple "failed_verification" <> nacl_error_tuple "alloc_failed".
Proof.
  intros Hv Hs Hrc Hheap.
  assert (H : fst (deref f argv w) = nacl_error_tuple "failed_verification"
              /\ exists n p,
                   emitted (deref f argv) w = [Alloc n true; Call p; Release]).
  { opening_cases f argv Hv Hs; run; rewrite Hheap; cbn [fst snd];
      match goal with
      | |- context [?x =? ?y] => destruct (x =? y) eqn:E
      end;
      cbn [negb fst snd trace];
      try (apply Z.eqb_eq in E; exfalso; apply Hrc; congruence);
      (split; [reflexivity|]);
      rewrite <- ?app_assoc; cbn [app]; rewrite skipn_app_length;
      do 2 eexists; reflexivity. }
  destruct H as [Hout Htrace].
  split; [exact Hout|]. split; [exact Htrace|].
  repeat split; try intros b; discriminate.
Qed.

(** [crypto_secretbox_open] on a box sealed under key 01, opened with
    key 02. *)
Lemma verification_failure_is_one_value_witness :
  fst (deref (sodium := Fixture.sodium) fn_crypto_secretbox_open
         [Binary (Fixture.zeros 16 ++ repeat x01 16 ++ [x68; x69]);
          Fixture.nonce; Fixture.key x02] Fixture.w0)
  = nacl_error_tuple "failed_verification".
Proof.
  apply (verification_failure_is_one_value (sodium := Fixture.sodium)
           fn_crypto_secretbox_open
           [Binary (Fixture.zeros 16 ++ repeat x01 16 ++ [x68; x69]);
            Fixture.nonce; Fixture.key x02]
           [Bytes (Fixture.zeros 16 ++ repeat x01 16 ++ [x68; x69]);
            Bytes (repeat x07 24); Bytes (repeat x02 32)]
           (-1) Fixture.w0).
  - reflexivity.
  - vm_compute. reflexivity.
  - lia.
  - reflexivity.
Defined.

(** ** Streams *)

(** C9, as stated, fails for some lengths: [2 ^ 64] does not fit the
    [ErlNifUInt64] the NIF reads its length into and is answered with
    [badarg], and a length whose buffer the allocator refuses is answered
    with [{error, alloc_failed}]; neither call returns a binary. *)
Lemma stream_length_refused :
  ~ (exists c,
        fst (enif_crypto_stream (sodium := Fixture.sodium)
               [Int (2 ^ 64); Fixture.nonce; Fixture.key x05] Fixture.w0)
        = Value (Binary c)
        /\ size c = 2 ^ 64)
  /\ ~ (exists c,
           fst (enif_crypto_stream (sodium := Fixture.sodium)
                  [Int 3; Fixture.nonce; Fixture.key x05] Fixture.w_full)
           = Value (Binary c)
           /\ size c = 3).
Proof.
  split; intros (c & H & _); vm_compute in H; discriminate H.
Qed.

(** C9, amended: with a key of [crypto_stream_KEYBYTES] (32) bytes and a
    nonce of [crypto_stream_NONCEBYTES] (24) bytes, [enif_crypto_stream]
    returns, when its buffer is granted, a binary of exactly [clen] bytes
    for every [clen] from 0 up to the largest [ErlNifUInt64] (the empty
    binary for [clen = 0]), and [enif_crypto_stream_xor] a binary as long
    as its message; when the buffer is refused both return
    [{error, alloc_failed}]; and every length of [2 ^ 64] or more is
    answered [badarg] with the world untouched. *)
Theorem stream_lengths {sodium : Sodium} (clen : Z) (t : ERL_NIF_TERM)
    (m n k : ErlNifBinary) (w : world) :
  0 <= clen < 2 ^ 64 ->
  enif_inspect_iolist_as_binary t = Some m ->
  size k = crypto_stream_KEYBYTES ->
  size n = crypto_stream_NONCEBYTES ->
  (hd true (heap w) = true ->
   (exists c,
       fst (enif_crypto_stream [Int clen; Binary n; Binary k] w) = Value (Binary c)
       /\ size c = clen
       /\ (clen = 0 -> c = []))
   /\ (exists c,
          fst (enif_crypto_stream_xor [t; Binary n; Binary k] w) = Value (Binary c)
          /\ size c = size m))
  /\ (hd true (heap w) = false ->
      fst (enif_crypto_stream [Int clen; Binary n; Binary k] w)
      = nacl_error_tuple "alloc_failed"
      /\ fst (enif_crypto_stream_xor [t; Binary n; Binary k] w)
         = nacl_error_tuple "alloc_failed")
  /\ (forall z,
         2 ^ 64 <= z ->
         enif_crypto_stream [Int z; Binary n; Binary k] w = (enif_make_badarg, w)).
Proof.
  intros Hclen Ht Hk Hn.
  assert (Hu : enif_get_uint64 (Int clen) = Some clen).
  { unfold enif_get_uint64.
    replace ((0 <=? clen) && (clen <? 2 ^ 64)) with true; [reflexivity|].
    symmetry. rewrite andb_true_iff, Z.leb_le, Z.ltb_lt. lia. }
  split; [|split].
  - intros Hheap.
    unfold enif_crypto_stream, enif_crypto_stream_xor.
    rewrite Hu, Ht. cbn [enif_inspect_binary].
    rewrite Hk, Hn, !Z.eqb_refl. cbn [negb orb].
    run. rewrite Hheap. cbn [fst snd].
    split; eexists; (split; [reflexivity|]).
    + rewrite size_write. split; [apply size_alloc; lia|].
      intros ->. unfold write. cbn. apply skipn_nil.
    + rewrite size_write. apply size_alloc, size_nonneg.
  - intros Hheap.
    unfold enif_crypto_stream, enif_crypto_stream_xor.
    rewrite Hu, Ht. cbn [enif_inspect_binary].
    rewrite Hk, Hn, !Z.eqb_refl. cbn [negb orb].
    run. rewrite Hheap. cbn [fst snd]. split; reflexivity.
  - intros z Hz.
    assert (Hnone : enif_get_uint64 (Int z) = None).
    { unfold enif_get_uint64.
      replace (z <? 2 ^ 64) with false by (symmetry; apply Z.ltb_ge; exact Hz).
      rewrite andb_false_r. reflexivity. }
    unfold enif_crypto_stream. rewrite Hnone. reflexivity.
Qed.

(** A stream of three bytes, the three-byte message [[1, <<2, 3>>]]
    xored, and the length [2 ^ 64]. *)
Lemma stream_lengths_witness :
  (exists c,
      fst (enif_crypto_stream (sodium := Fixture.sodium)
             [Int 3; Fixture.nonce; Fixture.key x05] Fixture.w0) = Value (Binary c)
      /\ size c = 3
      /\ (3 = 0 -> c = []))
  /\ (exists c,
         fst (enif_crypto_stream_xor (sodium := Fixture.sodium)
                [Cons (Int 1) (Binary [x02; x03]); Fixture.nonce; Fixture.key x05]
                Fixture.w0) = Value (Binary c)
         /\ size c = size [x01; x02; x03])
  /\ enif_crypto_stream (sodium := Fixture.sodium)
       [Int (2 ^ 64); Fixture.nonce; Fixture.key x05] Fixture.w0
     = (enif_make_badarg, Fixture.w0).
Proof.
  pose proof (stream_lengths (sodium := Fixture.sodium) 3
                (Cons (Int 1) (Binary [x02; x03])) [x01; x02; x03]
                (repeat x07 24) (repeat x05 32) Fixture.w0
                ltac:(lia) eq_refl eq_refl eq_refl) as (Hgranted & _ & Hlarge).
  split; [exact (proj1 (Hgranted eq_refl))|].
  split; [exact (proj2 (Hgranted eq_refl))|].
  apply Hlarge. lia.
Defined.

(** * Further properties of the NIFs *)

(** ** Exactly the calls that break the contract are answered [badarg] *)

(** X1: a NIF with a contract returns [badarg] if and only if its
    arguments do not meet the contract; a conforming call is never turned
    away, whatever the allocator and the library do. *)
Theorem badarg_iff_nonconforming {sodium : Sodium} (f : fn) (ps : list param)
    (argv : list ERL_NIF_TERM) (w : world) :
  primitive_spec f = Some ps ->
  (fst (deref f argv w) = enif_make_badarg <-> decode ps argv = None).
Proof.
  intros Hs. split.
  - intros Hb. destruct (decode ps argv) as [args|] eqn:Hd; [exfalso|reflexivity].
    revert Hb.
    conforming_cases f argv Hs Hd; run;
      repeat (split_if; cbn [fst snd]);
      unfold nacl_error_tuple, enif_make_sub_binary;
      repeat (split_if; cbn [fst snd]); discriminate.
  - intros Hd. rewrite (nonconforming_badarg f ps argv w Hs Hd). reflexivity.
Qed.

Lemma badarg_iff_nonconforming_witness :
  fst (deref (sodium := Fixture.sodium) fn_crypto_auth
         [Nil; Binary (repeat x01 31)] Fixture.w0) = enif_make_badarg
  <-> decode [Iolist 0; Flat Key crypto_auth_KEYBYTES]
        [Nil; Binary (repeat x01 31)] = None.
Proof.
  apply (badarg_iff_nonconforming (sodium := Fixture.sodium) fn_crypto_auth).
  reflexivity.
Defined.

(** ** The NIFs that answer yes or no *)

(** X2: [crypto_verify_16], [crypto_verify_32], [crypto_auth_verify] and
    [crypto_onetimeauth_verify] either reject the call with [badarg]
    before doing anything, or call the library exactly once and answer
    with the atom [true] or [false]; they never allocate or release a
    buffer. *)
Theorem boolean_nifs_answer {sodium : Sodium} (f : fn)
    (argv : list ERL_NIF_TERM) (w : world) :
  In f boolean_nifs ->
  ((fst (deref f argv w) = enif_make_badarg /\ emitted (deref f argv) w = [])
   \/ ((fst (deref f argv w) = Value (enif_make_atom "true")
        \/ fst (deref f argv w) = Value (enif_make_atom "false"))
       /\ exists p, emitted (deref f argv) w = [Call p]))
  /\ heap (snd (deref f argv w)) = heap w.
Proof.
  intros H. unfold boolean_nifs in H. cbn [In] in H.
  repeat (destruct H as [<-|H]); try contradiction;
    autounfold with nifs;
    do 4 try (destruct argv as [|? argv]);
    repeat split_guard; cbn [negb orb]; run;
    repeat (split_if; cbn [fst snd trace heap]);
    rewrite ?skipn_app_length, ?skipn_all_length;
    (split; [|reflexivity]);
    try (left; split; reflexivity);
    right; (split; [|eexists; reflexivity]); auto.
Qed.

(** Two equal 16-byte strings under [crypto_verify_16]. *)
Lemma boolean_nifs_answer_witness :
  fst (deref (sodium := Fixture.sodium) fn_crypto_verify_16
         [Binary (repeat x01 16); Binary (repeat x01 16)] Fixture.w_full)
  = Value (Atom "true")
  /\ heap (snd (deref (sodium := Fixture.sodium) fn_crypto_verify_16
                  [Binary (repeat x01 16); Binary (repeat x01 16)] Fixture.w_full))
     = [false].
Proof.
  destruct (boolean_nifs_answer (sodium := Fixture.sodium) fn_crypto_verify_16
              [Binary (repeat x01 16); Binary (repeat x01 16)] Fixture.w_full)
    as [_ Hheap]; [unfold boolean_nifs; cbn [In]; tauto|].
  split; [vm_compute; reflexivity|exact Hheap].
Defined.

(** ** The sizes of what is returned *)

(** X3: [crypto_hash], [crypto_auth] and [crypto_onetimeauth] return, for
    conforming arguments (an empty message included) and a granted buffer,
    a binary of exactly [crypto_hash_BYTES], [crypto_auth_BYTES] and
    [crypto_onetimeauth_BYTES] bytes, however many bytes the library
    wrote. *)
Theorem fixed_size_outputs {sodium : Sodium} (f : fn) (n : Z)
    (argv : list ERL_NIF_TERM) (args : list arg) (w : world) :
  In (f, n) fixed_output ->
  validated f argv = Some args ->
  hd true (heap w) = true ->
  exists b, fst (deref f argv w) = Value (Binary b) /\ size b = n.
Proof.
  intros H Hv Hheap. unfold fixed_output in H. cbn [In] in H.
  repeat (destruct H as [H|H]); try contradiction;
    injection H as <- <-;
    unfold validated in Hv; cbn [primitive_spec] in Hv;
    guard_cases argv Hv;
    run; rewrite Hheap; cbn [fst snd];
    eexists; (split; [reflexivity|]);
    rewrite size_write; apply size_alloc; vm_compute; discriminate.
Qed.

(** The hash of the empty iolist. *)
Lemma fixed_size_outputs_witness :
  exists b,
    fst (deref (sodium := Fixture.sodium) fn_crypto_hash [Nil] Fixture.w0)
    = Value (Binary b)
    /\ size b = crypto_hash_BYTES.
Proof.
  apply (fixed_size_outputs (sodium := Fixture.sodium) fn_crypto_hash
           crypto_hash_BYTES [Nil] [Bytes []] Fixture.w0).
  - unfold fixed_output; cbn [In]; tauto.
  - reflexivity.
  - reflexivity.
Defined.

(** X4: a key generator that is granted both buffers returns the pair
    [{PublicKey, SecretKey}] of binaries of [PUBLICKEYBYTES] and
    [SECRETKEYBYTES] bytes, after asking for the public buffer first, the
    secret buffer second and calling the library last. *)
Theorem keypair_sizes_granted {sodium : Sodium} (f : fn) (npk nsk : Z) (w : world) :
  In (f, (npk, nsk)) keypair_sizes ->
  hd true (heap w) = true ->
  hd true (tl (heap w)) = true ->
  exists pk sk p,
    fst (deref f [] w) = Value (Tuple2 (Binary pk) (Binary sk))
    /\ size pk = npk /\ size sk = nsk
    /\ emitted (deref f []) w = [Alloc npk true; Alloc nsk true; Call p].
Proof.
  intros H H1 H2. unfold keypair_sizes in H. cbn [In] in H.
  repeat (destruct H as [H|H]); try contradiction;
    injection H as <- <- <-;
    autounfold with nifs; run; rewrite H1; cbn [fst snd heap trace entropy];
    rewrite H2; cbn [fst snd heap trace entropy];
    rewrite <- ?app_assoc; cbn [app]; rewrite skipn_app_length;
    do 3 eexists; (split; [reflexivity|]);
    rewrite !size_write;
    (split; [apply size_alloc; vm_compute; discriminate|]);
    (split; [apply size_alloc; vm_compute; discriminate|reflexivity]).
Qed.

Lemma keypair_sizes_granted_witness :
  exists pk sk p,
    fst (deref (sodium := Fixture.sodium) fn_crypto_sign_keypair [] Fixture.w0)
    = Value (Tuple2 (Binary pk) (Binary sk))
    /\ size pk = crypto_sign_PUBLICKEYBYTES
    /\ size sk = crypto_sign_SECRETKEYBYTES
    /\ emitted (deref (sodium := Fixture.sodium) fn_crypto_sign_keypair [])
         Fixture.w0
       = [Alloc crypto_sign_PUBLICKEYBYTES true;
          Alloc crypto_sign_SECRETKEYBYTES true; Call p].
Proof.
  apply (keypair_sizes_granted (sodium := Fixture.sodium) fn_crypto_sign_keypair).
  - unfold keypair_sizes; cbn [In]; tauto.
  - reflexivity.
  - reflexivity.
Defined.

(** X5: [crypto_box] and [crypto_secretbox] never ask the runtime for a
    sub-binary outside their buffer, whatever the arguments, the allocator
    and the library: their guard demands [ZEROBYTES] bytes and they strip
    only [BOXZEROBYTES].  For conforming arguments and a granted buffer
    they return a binary [BOXZEROBYTES] bytes shorter than the padded
    message. *)
Theorem sealed_sub_binary_in_range {sodium : Sodium} (f : fn) (strip : Z)
    (argv : list ERL_NIF_TERM) (w : world) :
  In (f, strip) sealing_nifs ->
  fst (deref f argv w) <> Undefined
  /\ forall padded_msg rest,
       validated f argv = Some (Bytes padded_msg :: rest) ->
       hd true (heap w) = true ->
       size padded_msg < 2 ^ 64 ->
       exists c,
         fst (deref f argv w) = Value (Binary c)
         /\ size c = size padded_msg - strip.
Proof.
  intros H. unfold sealing_nifs in H. cbn [In] in H.
  repeat (destruct H as [H|H]); try contradiction; injection H as <- <-.
  - split.
    + autounfold with nifs.
      do 5 try (destruct argv as [|? argv]); try discriminate.
      repeat split_guard; cbn [negb orb]; try discriminate.
      run. destruct (hd true (heap w)); cbn [fst snd]; [|discriminate].
      match goal with
      | H : (size ?m <? crypto_box_ZEROBYTES) = false |- context [write _ ?out] =>
          apply Z.ltb_ge in H;
          destruct (opened_sub_binary m out
                      crypto_box_BOXZEROBYTES) as (b & Eb & _);
          [unfold crypto_box_ZEROBYTES, crypto_box_BOXZEROBYTES in *; lia|]
      end.
      rewrite Eb. discriminate.
    + intros padded_msg rest Hv Hheap Hsz.
      unfold validated in Hv; cbn [primitive_spec] in Hv.
      guard_cases argv Hv. injection Hv as <- <-.
      run. rewrite Hheap. cbn [fst snd].
      match goal with
      | H : (size ?m <? crypto_box_ZEROBYTES) = false |- context [write _ ?out] =>
          apply Z.ltb_ge in H;
          destruct (opened_sub_binary m out
                      crypto_box_BOXZEROBYTES) as (b & Eb & _ & Sb);
          [unfold crypto_box_ZEROBYTES, crypto_box_BOXZEROBYTES in *; lia|]
      end.
      exists b. split; [exact Eb|apply Sb, Hsz].
  - split.
    + autounfold with nifs.
      do 4 try (destruct argv as [|? argv]); try discriminate.
      repeat split_guard; cbn [negb orb]; try discriminate.
      run. destruct (hd true (heap w)); cbn [fst snd]; [|discriminate].
      match goal with
      | H : (size ?m <? crypto_secretbox_ZEROBYTES) = false |- context [write _ ?out] =>
          apply Z.ltb_ge in H;
          destruct (opened_sub_binary m out
                      crypto_secretbox_BOXZEROBYTES) as (b & Eb & _);
          [unfold crypto_secretbox_ZEROBYTES, crypto_secretbox_BOXZEROBYTES in *;
           lia|]
      end.
      rewrite Eb. discriminate.
    + intros padded_msg rest Hv Hheap Hsz.
      unfold validated in Hv; cbn [primitive_spec] in Hv.
      guard_cases argv Hv. injection Hv as <- <-.
      run. rewrite Hheap. cbn [fst snd].
      match goal with
      | H : (size ?m <? crypto_secretbox_ZEROBYTES) = false |- context [write _ ?out] =>
          apply Z.ltb_ge in H;
          destruct (opened_sub_binary m out
                      crypto_secretbox_BOXZEROBYTES) as (b & Eb & _ & Sb);
          [unfold crypto_secretbox_ZEROBYTES, crypto_secretbox_BOXZEROBYTES in *;
           lia|]
      end.
      exists b. split; [exact Eb|apply Sb, Hsz].
Qed.

(** A 34-byte padded message sealed into 18 bytes. *)
Lemma sealed_sub_binary_in_range_witness :
  exists c,
    fst (deref (sodium := Fixture.sodium) fn_crypto_secretbox
           [Fixture.padded_msg; Fixture.nonce; Fixture.key x01] Fixture.w0)
    = Value (Binary c)
    /\ size c = size (Fixture.zeros 32 ++ [x68; x69]) - crypto_secretbox_BOXZEROBYTES.
Proof.
  apply (proj2 (sealed_sub_binary_in_range (sodium := Fixture.sodium)
                  fn_crypto_secretbox crypto_secretbox_BOXZEROBYTES
                  [Fixture.padded_msg; Fixture.nonce; Fixture.key x01] Fixture.w0
                  ltac:(unfold sealing_nifs; cbn [In]; tauto))
           (Fixture.zeros 32 ++ [x68; x69])
           [Bytes (repeat x07 24); Bytes (repeat x01 32)]).
  - reflexivity.
  - reflexivity.
  - vm_compute. reflexivity.
Defined.

(** ** What happens to the buffers *)

(** X6: a NIF releases a buffer exactly when it returns
    [{error, failed_verification}]: the release is then the last thing it
    does, after the one call of the library, and no other path of any NIF
    releases anything. *)
Theorem release_iff_failed_verification {sodium : Sodium} (f : fn)
    (argv : list ERL_NIF_TERM) (w : world) :
  (In Release (emitted (deref f argv) w)
   <-> fst (deref f argv w) = nacl_error_tuple "failed_verification")
  /\ (In Release (emitted (deref f argv) w) ->
      exists n p, emitted (deref f argv) w = [Alloc n true; Call p; Release]).
Proof.
  destruct f; autounfold with nifs;
    do 5 try (destruct argv as [|? argv]);
    repeat split_guard; cbn [negb orb]; run;
    repeat (split_if; cbn [fst snd trace heap entropy]);
    rewrite <- ?app_assoc; cbn [app];
    rewrite ?skipn_app_length, ?skipn_all_length;
    unfold enif_make_sub_binary;
    repeat (split_if; cbn [fst snd]);
    (split; [split|]); intros H; cbn [In] in *;
    try discriminate H;
    try (repeat destruct H as [H|H]; try discriminate H; contradiction);
    try (do 2 eexists; reflexivity);
    auto.
Qed.

(** X7: only the two key generators can be refused a buffer after having
    been granted one, and they then return [{error, alloc_failed}] without
    releasing the buffer they hold and without making a binary of it. *)
Theorem refused_after_granted {sodium : Sodium} (f : fn)
    (argv : list ERL_NIF_TERM) (w : world) (n : Z) :
  fst (deref f argv w) = nacl_error_tuple "alloc_failed" ->
  In (Alloc n true) (emitted (deref f argv) w) ->
  (f = fn_crypto_box_keypair \/ f = fn_crypto_sign_keypair)
  /\ exists m, emitted (deref f argv) w = [Alloc n true; Alloc m false].
Proof.
  destruct f; autounfold with nifs;
    do 5 try (destruct argv as [|? argv]);
    repeat split_guard; cbn [negb orb]; run;
    repeat (split_if; cbn [fst snd trace heap entropy]);
    rewrite <- ?app_assoc; cbn [app];
    rewrite ?skipn_app_length, ?skipn_all_length;
    unfold enif_make_sub_binary;
    repeat (split_if; cbn [fst snd]);
    intros Ho Hin; try discriminate Ho; cbn [In] in Hin;
    repeat (destruct Hin as [Hin|Hin]; try discriminate Hin);
    try contradiction;
    injection Hin as <-; (split; [auto|eexists; reflexivity]).
Qed.

(** The second buffer of [crypto_box_keypair] is refused. *)
Lemma refused_after_granted_witness :
  exists m,
    emitted (deref (sodium := Fixture.sodium) fn_crypto_box_keypair [])
      (mkWorld [true; false] 0 [])
    = [Alloc crypto_box_PUBLICKEYBYTES true; Alloc m false].
Proof.
  apply (refused_after_granted (sodium := Fixture.sodium) fn_crypto_box_keypair
           [] (mkWorld [true; false] 0 []) crypto_box_PUBLICKEYBYTES).
  - reflexivity.
  - vm_compute. left. reflexivity.
Defined.

(** X8: in every run of every NIF the library is called at most once; all
    that precedes the call are granted allocations, and all that can
    follow it is the release of the buffer. *)
Theorem one_library_call {sodium : Sodium} (f : fn)
    (argv : list ERL_NIF_TERM) (w : world) (before after : list event)
    (p : string) :
  emitted (deref f argv) w = before ++ Call p :: after ->
  (forall e, In e before -> exists n, e = Alloc n true)
  /\ (after = [] \/ after = [Release]).
Proof.
  destruct f; autounfold with nifs;
    do 5 try (destruct argv as [|? argv]);
    repeat split_guard; cbn [negb orb]; run;
    repeat (split_if; cbn [fst snd trace heap entropy]);
    rewrite <- ?app_assoc; cbn [app];
    rewrite ?skipn_app_length, ?skipn_all_length;
    intros H;
    repeat (destruct before as [|? before]; cbn [app] in H;
            [|injection H as <- H]);
    try discriminate H;
    try (destruct before; discriminate H);
    injection H as <- <-;
    (split; [intros ev Hev; cbn [In] in Hev;
             repeat (destruct Hev as [<-|Hev]); try contradiction; eexists;
             reflexivity
            |auto]).
Qed.

(** The failed opening of the 20-byte ciphertext. *)
Lemma one_library_call_witness :
  (forall e, In e [Alloc 20 true] -> exists n, e = Alloc n true)
  /\ ([Release] = [] \/ [Release] = [Release]).
Proof.
  apply (one_library_call (sodium := Fixture.sodium) fn_crypto_secretbox_open
           [Binary (Fixture.zeros 20); Fixture.nonce; Fixture.key x01] Fixture.w0
           [Alloc 20 true] [Release] "crypto_secretbox_open").
  vm_compute. reflexivity.
Defined.

(** ** The table and the contracts *)

Lemma table_arities (e : ErlNifFunc) :
  In e nif_funcs ->
  arity e = match primitive_spec (fptr e) with
            | Some ps => List.length ps
            | None => 0%nat
            end.
Proof.
  intros H. unfold nif_funcs in H. cbn [In] in H.
  repeat (destruct H as [<-|H]; [reflexivity|]). contradiction.
Qed.

Lemma table_names_distinct : NoDup (map name nif_funcs).
Proof.
  replace (map name nif_funcs) with (nodup string_dec (map name nif_funcs))
    by (vm_compute; reflexivity).
  apply NoDup_nodup.
Qed.

Lemma NoDup_map_injective {A B : Type} (g : A -> B) (l : list A) (x y : A) :
  NoDup (map g l) -> In x l -> In y l -> g x = g y -> x = y.
Proof.
  induction l as [|a l IH]; cbn [map In]; intros Hn Hx Hy E; [contradiction|].
  inversion Hn as [|? ? Hnot Hrest]; subst.
  destruct Hx as [<-|Hx], Hy as [<-|Hy]; auto.
  - exfalso. apply Hnot. rewrite E. apply in_map, Hy.
  - exfalso. apply Hnot. rewrite <- E. apply in_map, Hx.
Qed.

(** X9: a call that the runtime resolves in the table reaches its C
    function with exactly the number of arguments the function's first
    guard asks for (none for a size getter), and the resolved entry is the
    only entry of that name: through the table the [argc] tests never
    fire. *)
Theorem resolved_call_has_contract_arity (fname : string)
    (argv : list ERL_NIF_TERM) (e : ErlNifFunc) :
  find_nif fname (List.length argv) = Some e ->
  (forall e', In e' nif_funcs -> name e' = fname -> e' = e)
  /\ match primitive_spec (fptr e) with
     | Some ps => List.length argv = List.length ps
     | None => argv = []
     end.
Proof.
  intros H. unfold find_nif in H. apply find_some in H as [Hin Hp].
  apply andb_true_iff in Hp as [Hname Harity].
  apply String.eqb_eq in Hname. apply Nat.eqb_eq in Harity.
  split.
  - intros e' Hin' E.
    apply (NoDup_map_injective name nif_funcs e' e table_names_distinct Hin' Hin).
    congruence.
  - pose proof (table_arities e Hin) as Ha.
    destruct (primitive_spec (fptr e)); [congruence|].
    destruct argv; [reflexivity|cbn in Harity; congruence].
Qed.

Lemma resolved_call_has_contract_arity_witness :
  List.length [Fixture.padded_msg; Fixture.nonce; Fixture.key x01]
  = List.length [Iolist crypto_secretbox_ZEROBYTES;
                 Flat Nonce crypto_secretbox_NONCEBYTES;
                 Flat Key crypto_secretbox_KEYBYTES].
Proof.
  exact (proj2 (resolved_call_has_contract_arity "crypto_secretbox_b"
                  [Fixture.padded_msg; Fixture.nonce; Fixture.key x01]
                  (mkFunc "crypto_secretbox_b" 3 fn_crypto_secretbox 0) eq_refl)).
Defined.

(** X10: a C function is registered as a dirty CPU job exactly when its
    contract has a slot whose size the caller chooses (a message, or the
    length of a stream); the key generators, the two comparisons of fixed
    length and the size getters are only registered for the normal
    scheduler. *)
Theorem dirty_iff_variable_size (f : fn) :
  (exists e, In e nif_funcs /\ fptr e = f /\ is_dirty e = true)
  <-> (exists ps, primitive_spec f = Some ps /\ existsb variable_size ps = true).
Proof.
  pose (registered_dirty := fun g =>
          existsb (fun e => (if fn_eq_dec (fptr e) g then true else false)
                            && is_dirty e) nif_funcs).
  assert (Hreg : (exists e, In e nif_funcs /\ fptr e = f /\ is_dirty e = true)
                 <-> registered_dirty f = true).
  { unfold registered_dirty. rewrite existsb_exists. split.
    - intros (e & Hin & Hf & Hd). exists e. split; [exact Hin|].
      rewrite Hd. destruct (fn_eq_dec (fptr e) f); [reflexivity|contradiction].
    - intros (e & Hin & Hp). exists e. apply andb_true_iff in Hp as [Hf Hd].
      destruct (fn_eq_dec (fptr e) f); [auto|discriminate]. }
  rewrite Hreg. clear Hreg. split.
  - intros H. destruct f; vm_compute in H; try discriminate H;
      eexists; split; reflexivity.
  - intros (ps & Hs & Hv).
    destruct f; simpl in Hs; try discriminate Hs; injection Hs as <-;
      try discriminate Hv; reflexivity.
Qed.

(** ** Round trips through the library *)

Lemma written_buffer (n : Z) (out : ErlNifBinary) :
  size out = n -> write (repeat x00 (Z.to_nat n)) out = out.
Proof.
  intros <-. unfold write, size. rewrite repeat_length, Nat2Z.id.
  rewrite firstn_all, skipn_all2 by (rewrite repeat_length; lia).
  apply app_nil_r.
Qed.

Lemma sub_binary_suffix (b : ErlNifBinary) (pos : Z) :
  0 <= pos <= size b -> size b < 2 ^ 64 ->
  enif_make_sub_binary b pos (size_sub (size b) pos)
  = Value (Binary (skipn (Z.to_nat pos) b)).
Proof.
  intros Hp Hb. destruct (size_sub_le (size b) pos ltac:(lia)) as [_ He].
  rewrite (He Hb ltac:(lia)). unfold enif_make_sub_binary.
  replace ((0 <=? pos) && (0 <=? size b - pos) && (pos + (size b - pos) <=? size b))
    with true by (symmetry; rewrite !andb_true_iff, !Z.leb_le; lia).
  rewrite firstn_all2; [reflexivity|].
  rewrite length_skipn. unfold size in *. lia.
Qed.

Lemma sub_binary_prefix (b : ErlNifBinary) (len : Z) :
  0 <= len <= size b ->
  enif_make_sub_binary b 0 len = Value (Binary (firstn (Z.to_nat len) b)).
Proof.
  intros H. unfold enif_make_sub_binary.
  replace ((0 <=? 0) && (0 <=? len) && (0 + len <=? size b))
    with true by (symmetry; rewrite !andb_true_iff, !Z.leb_le; lia).
  reflexivity.
Qed.

Lemma firstn_write_prefix (buf out : ErlNifBinary) (k : nat) :
  (k <= List.length out)%nat -> (k <= List.length buf)%nat ->
  firstn k (write buf out) = firstn k out.
Proof.
  intros Ho Hb. unfold write. rewrite firstn_app, firstn_firstn, length_firstn.
  replace (Init.Nat.min k (List.length buf)) with k by lia.
  replace (k - Init.Nat.min (List.length buf) (List.length out))%nat with 0%nat
    by lia.
  cbn [firstn]. apply app_nil_r.
Qed.

Lemma size_app (a b : ErlNifBinary) : size (a ++ b) = size a + size b.
Proof. unfold size. rewrite length_app. lia. Qed.

Lemma eqb_size (b : ErlNifBinary) (n : Z) : size b = n -> (size b =? n) = true.
Proof. intros ->. apply Z.eqb_refl. Qed.

Section RoundTrips.

Context {sodium : Sodium}.

(** X11: if the library seals the padded message [32 zero bytes ++ msg]
    into a ciphertext of the same length that starts with 16 zero bytes,
    and opens that ciphertext again, then [crypto_secretbox] returns the
    ciphertext without its 16 zero bytes and [crypto_secretbox_open], given
    those 16 zero bytes back in front, returns exactly [msg]. *)
Theorem secretbox_round_trip (msg n k : ErlNifBinary) (w w' : world) :
  let m := repeat x00 32 ++ msg in
  size k = crypto_secretbox_KEYBYTES ->
  size n = crypto_secretbox_NONCEBYTES ->
  size m < 2 ^ 64 ->
  hd true (heap w) = true ->
  hd true (heap w') = true ->
  size (crypto_secretbox m n k) = size m ->
  firstn 16 (crypto_secretbox m n k) = repeat x00 16 ->
  crypto_secretbox_open (crypto_secretbox m n k) n k = (0, m) ->
  exists c,
    fst (enif_crypto_secretbox [Binary m; Binary n; Binary k] w) = Value (Binary c)
    /\ size c = size msg + 16
    /\ fst (enif_crypto_secretbox_open
              [Binary (repeat x00 16 ++ c); Binary n; Binary k] w')
       = Value (Binary msg).
Proof.
  intros m Hk Hn Hm Hw Hw' Hsize Hzero Hopen.
  assert (Sm : size m = 32 + size msg) by (unfold m; rewrite size_app; reflexivity).
  pose proof (size_nonneg msg) as Hmsg.
  exists (skipn 16 (crypto_secretbox m n k)).
  assert (Hc : repeat x00 16 ++ skipn 16 (crypto_secretbox m n k)
               = crypto_secretbox m n k)
    by (rewrite <- Hzero; apply firstn_skipn).
  split; [|split].
  - unfold enif_crypto_secretbox. cbn [enif_inspect_iolist_as_binary enif_inspect_binary].
    rewrite (eqb_size _ _ Hk), (eqb_size _ _ Hn).
    replace (size m <? crypto_secretbox_ZEROBYTES) with false
      by (symmetry; apply Z.ltb_ge; unfold crypto_secretbox_ZEROBYTES; lia).
    cbn [negb orb]. run. rewrite Hw. cbn [fst snd].
    rewrite (written_buffer _ _ Hsize).
    rewrite <- Hsize.
    rewrite sub_binary_suffix;
      [reflexivity|unfold crypto_secretbox_BOXZEROBYTES; lia|lia].
  - unfold size in *. rewrite length_skipn. lia.
  - rewrite Hc.
    unfold enif_crypto_secretbox_open.
    cbn [enif_inspect_iolist_as_binary enif_inspect_binary].
    rewrite (eqb_size _ _ Hk), (eqb_size _ _ Hn).
    replace (size (crypto_secretbox m n k) <? crypto_secretbox_BOXZEROBYTES)
      with false
      by (symmetry; apply Z.ltb_ge; unfold crypto_secretbox_BOXZEROBYTES; lia).
    cbn [negb orb]. run. rewrite Hw'. cbn [fst snd].
    rewrite Hopen. cbn [fst snd Z.eqb negb].
    rewrite (written_buffer _ _ (eq_sym Hsize)).
    rewrite Hsize, sub_binary_suffix;
      [|unfold crypto_secretbox_ZEROBYTES; lia|lia].
    unfold m. reflexivity.
Qed.

(** X12: the same round trip for [crypto_box] and [crypto_box_open], with
    the keys the library is given on each side. *)
Theorem box_round_trip (msg n pk sk pk' sk' : ErlNifBinary) (w w' : world) :
  let m := repeat x00 32 ++ msg in
  size n = crypto_box_NONCEBYTES ->
  size pk = crypto_box_PUBLICKEYBYTES ->
  size sk = crypto_box_SECRETKEYBYTES ->
  size pk' = crypto_box_PUBLICKEYBYTES ->
  size sk' = crypto_box_SECRETKEYBYTES ->
  size m < 2 ^ 64 ->
  hd true (heap w) = true ->
  hd true (heap w') = true ->
  size (crypto_box m n pk sk) = size m ->
  firstn 16 (crypto_box m n pk sk) = repeat x00 16 ->
  crypto_box_open (crypto_box m n pk sk) n pk' sk' = (0, m) ->
  exists c,
    fst (enif_crypto_box [Binary m; Binary n; Binary pk; Binary sk] w)
    = Value (Binary c)
    /\ size c = size msg + 16
    /\ fst (enif_crypto_box_open
              [Binary (repeat x00 16 ++ c); Binary n; Binary pk'; Binary sk'] w')
       = Value (Binary msg).
Proof.
  intros m Hn Hpk Hsk Hpk' Hsk' Hm Hw Hw' Hsize Hzero Hopen.
  assert (Sm : size m = 32 + size msg) by (unfold m; rewrite size_app; reflexivity).
  pose proof (size_nonneg msg) as Hmsg.
  exists (skipn 16 (crypto_box m n pk sk)).
  assert (Hc : repeat x00 16 ++ skipn 16 (crypto_box m n pk sk)
               = crypto_box m n pk sk)
    by (rewrite <- Hzero; apply firstn_skipn).
  split; [|split].
  - unfold enif_crypto_box. cbn [enif_inspect_iolist_as_binary enif_inspect_binary].
    rewrite (eqb_size _ _ Hn), (eqb_size _ _ Hpk), (eqb_size _ _ Hsk).
    replace (size m <? crypto_box_ZEROBYTES) with false
      by (symmetry; apply Z.ltb_ge; unfold crypto_box_ZEROBYTES; lia).
    cbn [negb orb]. run. rewrite Hw. cbn [fst snd].
    rewrite (written_buffer _ _ Hsize).
    rewrite <- Hsize.
    rewrite sub_binary_suffix;
      [reflexivity|unfold crypto_box_BOXZEROBYTES; lia|lia].
  - unfold size in *. rewrite length_skipn. lia.
  - rewrite Hc.
    unfold enif_crypto_box_open.
    cbn [enif_inspect_iolist_as_binary enif_inspect_binary].
    rewrite (eqb_size _ _ Hn), (eqb_size _ _ Hpk'), (eqb_size _ _ Hsk').
    replace (size (crypto_box m n pk sk) <? crypto_box_BOXZEROBYTES)
      with false
      by (symmetry; apply Z.ltb_ge; unfold crypto_box_BOXZEROBYTES; lia).
    cbn [negb orb]. run. rewrite Hw'. cbn [fst snd].
    rewrite Hopen. cbn [fst snd Z.eqb negb].
    rewrite (written_buffer _ _ (eq_sym Hsize)).
    rewrite Hsize, sub_binary_suffix;
      [|unfold crypto_box_ZEROBYTES; lia|lia].
    unfold m. reflexivity.
Qed.

(** X13: if the library's authenticator has [crypto_auth_BYTES] bytes and
    the library accepts it, then what [crypto_auth] returns for a message
    and a key is answered [true] by [crypto_auth_verify] for the same
    message (in any iolist form) and key. *)
Theorem auth_then_verify (t t' : ERL_NIF_TERM) (m k : ErlNifBinary)
    (w w' : world) :
  enif_inspect_iolist_as_binary t = Some m ->
  enif_inspect_iolist_as_binary t' = Some m ->
  size k = crypto_auth_KEYBYTES ->
  hd true (heap w) = true ->
  size (crypto_auth m k) = crypto_auth_BYTES ->
  crypto_auth_verify (crypto_auth m k) m k = 0 ->
  exists a,
    fst (enif_crypto_auth [t; Binary k] w) = Value (Binary a)
    /\ fst (enif_crypto_auth_verify [Binary a; t'; Binary k] w')
       = Value (Atom "true").
Proof.
  intros Ht Ht' Hk Hw Hsize Hok.
  exists (crypto_auth m k). split.
  - unfold enif_crypto_auth. rewrite Ht. cbn [enif_inspect_binary].
    rewrite (eqb_size _ _ Hk). cbn [negb]. run. rewrite Hw. cbn [fst snd].
    rewrite (written_buffer _ _ Hsize). reflexivity.
  - unfold enif_crypto_auth_verify. rewrite Ht'. cbn [enif_inspect_binary].
    rewrite (eqb_size _ _ Hk), (eqb_size _ _ Hsize). cbn [negb orb]. run.
    rewrite Hok. reflexivity.
Qed.

(** X14: the same for [crypto_onetimeauth] and
    [crypto_onetimeauth_verify]. *)
Theorem onetimeauth_then_verify (t t' : ERL_NIF_TERM) (m k : ErlNifBinary)
    (w w' : world) :
  enif_inspect_iolist_as_binary t = Some m ->
  enif_inspect_iolist_as_binary t' = Some m ->
  size k = crypto_onetimeauth_KEYBYTES ->
  hd true (heap w) = true ->
  size (crypto_onetimeauth m k) = crypto_onetimeauth_BYTES ->
  crypto_onetimeauth_verify (crypto_onetimeauth m k) m k = 0 ->
  exists a,
    fst (enif_crypto_onetimeauth [t; Binary k] w) = Value (Binary a)
    /\ fst (enif_crypto_onetimeauth_verify [Binary a; t'; Binary k] w')
       = Value (Atom "true").
Proof.
  intros Ht Ht' Hk Hw Hsize Hok.
  exists (crypto_onetimeauth m k). split.
  - unfold enif_crypto_onetimeauth. rewrite Ht. cbn [enif_inspect_binary].
    rewrite (eqb_size _ _ Hk). cbn [negb]. run. rewrite Hw. cbn [fst snd].
    rewrite (written_buffer _ _ Hsize). reflexivity.
  - unfold enif_crypto_onetimeauth_verify. rewrite Ht'. cbn [enif_inspect_binary].
    rewrite (eqb_size _ _ Hk), (eqb_size _ _ Hsize). cbn [negb orb]. run.
    rewrite Hok. reflexivity.
Qed.

(** X15: [crypto_sign] hands the length [smlen] the library reports
    straight to the runtime.  For conforming arguments and a granted
    buffer the result is a binary of [smlen] bytes when
    [0 <= smlen <= m.size + crypto_sign_BYTES] (the sum taken as a
    [size_t]), and is outside the buffer, hence undefined, otherwise. *)
Theorem sign_length_from_library (t : ERL_NIF_TERM) (m sk : ErlNifBinary)
    (w : world) :
  enif_inspect_iolist_as_binary t = Some m ->
  size sk = crypto_sign_SECRETKEYBYTES ->
  hd true (heap w) = true ->
  let smlen := snd (crypto_sign m sk) in
  (0 <= smlen <= size_add (size m) crypto_sign_BYTES ->
   exists sm,
     fst (enif_crypto_sign [t; Binary sk] w) = Value (Binary sm)
     /\ size sm = smlen)
  /\ (~ 0 <= smlen <= size_add (size m) crypto_sign_BYTES ->
      fst (enif_crypto_sign [t; Binary sk] w) = Undefined).
Proof.
  intros Ht Hsk Hw smlen.
  assert (Hbuf : 0 <= size_add (size m) crypto_sign_BYTES)
    by (unfold size_add; apply Z.mod_pos_bound; lia).
  assert (E : fst (enif_crypto_sign [t; Binary sk] w)
              = enif_make_sub_binary
                  (write (repeat x00 (Z.to_nat (size_add (size m) crypto_sign_BYTES)))
                     (fst (crypto_sign m sk))) 0 smlen).
  { unfold enif_crypto_sign. rewrite Ht. cbn [enif_inspect_binary].
    rewrite (eqb_size _ _ Hsk). cbn [negb]. run. rewrite Hw. reflexivity. }
  rewrite E. split.
  - intros Hr.
    apply sub_binary_in_range; try lia.
    rewrite size_write, size_alloc by exact Hbuf. lia.
  - intros Hr. unfold enif_make_sub_binary.
    rewrite size_write, size_alloc by exact Hbuf.
    destruct ((0 <=? 0) && (0 <=? smlen)
              && (0 + smlen <=? size_add (size m) crypto_sign_BYTES)) eqn:C;
      [|reflexivity].
    rewrite !andb_true_iff, !Z.leb_le in C. lia.
Qed.


(** X17: if the library signs [m] into [sm], 64 bytes longer, reports that
    length, and opens [sm] into [m], then [crypto_sign_open] applied to
    what [crypto_sign] returned gives back exactly [m]. *)
Theorem sign_round_trip (m sk pk sm buf : ErlNifBinary) (w w' : world) :
  size sk = crypto_sign_SECRETKEYBYTES ->
  size pk = crypto_sign_PUBLICKEYBYTES ->
  size m + crypto_sign_BYTES < 2 ^ 64 ->
  hd true (heap w) = true ->
  hd true (heap w') = true ->
  crypto_sign m sk = (sm, size sm) ->
  size sm = size m + crypto_sign_BYTES ->
  crypto_sign_open sm pk = (0, (buf, size m)) ->
  firstn (List.length m) buf = m ->
  fst (enif_crypto_sign [Binary m; Binary sk] w) = Value (Binary sm)
  /\ fst (enif_crypto_sign_open [Binary sm; Binary pk] w') = Value (Binary m).
Proof.
  intros Hsk Hpk Hm Hw Hw' Hsign Hsize Hopen Hbuf.
  pose proof (size_nonneg m) as Hm0. pose proof (size_nonneg sm) as Hsm0.
  assert (Hadd : size_add (size m) crypto_sign_BYTES = size sm).
  { unfold size_add. rewrite Z.mod_small; [lia|].
    unfold crypto_sign_BYTES in *. lia. }
  split.
  - unfold enif_crypto_sign. cbn [enif_inspect_iolist_as_binary enif_inspect_binary].
    rewrite (eqb_size _ _ Hsk). cbn [negb]. run. rewrite Hw. cbn [fst snd].
    rewrite Hsign. cbn [fst snd]. rewrite Hadd.
    rewrite (written_buffer _ _ eq_refl).
    rewrite sub_binary_prefix by lia.
    unfold size. rewrite Nat2Z.id, firstn_all. reflexivity.
  - unfold enif_crypto_sign_open.
    cbn [enif_inspect_iolist_as_binary enif_inspect_binary].
    rewrite (eqb_size _ _ Hpk). cbn [negb]. run. rewrite Hw'. cbn [fst snd].
    rewrite Hopen. cbn [fst snd Z.eqb].
    rewrite sub_binary_prefix
      by (rewrite size_write, size_alloc by exact Hsm0;
          unfold crypto_sign_BYTES in *; lia).
    replace (Z.to_nat (size m)) with (List.length m)
      by (unfold size; rewrite Nat2Z.id; reflexivity).
    assert (Hle : (List.length m <= List.length buf)%nat)
      by (rewrite <- Hbuf at 1; rewrite length_firstn; lia).
    rewrite firstn_write_prefix; [rewrite Hbuf; reflexivity|exact Hle|].
    rewrite repeat_length. unfold size, crypto_sign_BYTES in *. lia.
Qed.

(** X18: if xoring with the library's stream keeps the length and undoes
    itself, then [crypto_stream_xor] applied to its own result under the
    same nonce and key restores the message. *)
Theorem stream_xor_twice (t : ERL_NIF_TERM) (m n k : ErlNifBinary)
    (w w' : world) :
  enif_inspect_iolist_as_binary t = Some m ->
  size k = crypto_stream_KEYBYTES ->
  size n = crypto_stream_NONCEBYTES ->
  hd true (heap w) = true ->
  hd true (heap w') = true ->
  size (crypto_stream_xor m n k) = size m ->
  crypto_stream_xor (crypto_stream_xor m n k) n k = m ->
  exists c,
    fst (enif_crypto_stream_xor [t; Binary n; Binary k] w) = Value (Binary c)
    /\ fst (enif_crypto_stream_xor [Binary c; Binary n; Binary k] w')
       = Value (Binary m).
Proof.
  intros Ht Hk Hn Hw Hw' Hsize Hinv.
  exists (crypto_stream_xor m n k). split.
  - unfold enif_crypto_stream_xor. rewrite Ht. cbn [enif_inspect_binary].
    rewrite (eqb_size _ _ Hk), (eqb_size _ _ Hn). cbn [negb orb]. run.
    rewrite Hw. cbn [fst snd]. rewrite (written_buffer _ _ Hsize). reflexivity.
  - unfold enif_crypto_stream_xor.
    cbn [enif_inspect_iolist_as_binary enif_inspect_binary].
    rewrite (eqb_size _ _ Hk), (eqb_size _ _ Hn). cbn [negb orb]. run.
    rewrite Hw'. cbn [fst snd]. rewrite Hinv.
    rewrite (written_buffer _ _ (eq_sym Hsize)). reflexivity.
Qed.

End RoundTrips.

(** The round trips on the stand-in library. *)

Lemma secretbox_round_trip_witness :
  exists c,
    fst (enif_crypto_secretbox (sodium := Fixture.sodium)
           [Binary (repeat x00 32 ++ [x68; x69]); Fixture.nonce; Fixture.key x01]
           Fixture.w0) = Value (Binary c)
    /\ size c = size [x68; x69] + 16
    /\ fst (enif_crypto_secretbox_open (sodium := Fixture.sodium)
              [Binary (repeat x00 16 ++ c); Fixture.nonce; Fixture.key x01]
              Fixture.w0)
       = Value (Binary [x68; x69]).
Proof.
  apply (secretbox_round_trip (sodium := Fixture.sodium) [x68; x69]
           (repeat x07 24) (repeat x01 32) Fixture.w0 Fixture.w0);
    vm_compute; reflexivity.
Defined.

Lemma box_round_trip_witness :
  exists c,
    fst (enif_crypto_box (sodium := Fixture.sodium)
           [Binary (repeat x00 32 ++ [x68; x69]); Fixture.nonce; Fixture.key x01;
            Fixture.key x02] Fixture.w0) = Value (Binary c)
    /\ size c = size [x68; x69] + 16
    /\ fst (enif_crypto_box_open (sodium := Fixture.sodium)
              [Binary (repeat x00 16 ++ c); Fixture.nonce; Fixture.key x01;
               Fixture.key x03] Fixture.w0)
       = Value (Binary [x68; x69]).
Proof.
  apply (box_round_trip (sodium := Fixture.sodium) [x68; x69]
           (repeat x07 24) (repeat x01 32) (repeat x02 32) (repeat x01 32)
           (repeat x03 32) Fixture.w0 Fixture.w0);
    vm_compute; reflexivity.
Defined.

Lemma auth_then_verify_witness :
  exists a,
    fst (enif_crypto_auth (sodium := Fixture.sodium)
           [Cons (Int 1) (Binary [x02]); Fixture.key x01] Fixture.w0)
    = Value (Binary a)
    /\ fst (enif_crypto_auth_verify (sodium := Fixture.sodium)
              [Binary a; Binary [x01; x02]; Fixture.key x01] Fixture.w_full)
       = Value (Atom "true").
Proof.
  apply (auth_then_verify (sodium := Fixture.sodium)
           (Cons (Int 1) (Binary [x02])) (Binary [x01; x02]) [x01; x02]
           (repeat x01 32) Fixture.w0 Fixture.w_full);
    vm_compute; reflexivity.
Defined.

Lemma onetimeauth_then_verify_witness :
  exists a,
    fst (enif_crypto_onetimeauth (sodium := Fixture.sodium)
           [Nil; Fixture.key x01] Fixture.w0)
    = Value (Binary a)
    /\ fst (enif_crypto_onetimeauth_verify (sodium := Fixture.sodium)
              [Binary a; Binary []; Fixture.key x01] Fixture.w0)
       = Value (Atom "true").
Proof.
  apply (onetimeauth_then_verify (sodium := Fixture.sodium) Nil (Binary []) []
           (repeat x01 32) Fixture.w0 Fixture.w0);
    vm_compute; reflexivity.
Defined.

Lemma sign_length_from_library_witness :
  exists sm,
    fst (enif_crypto_sign (sodium := Fixture.sodium)
           [Binary [x01]; Binary (repeat x03 64)] Fixture.w0) = Value (Binary sm)
    /\ size sm = 65.
Proof.
  apply (proj1 (sign_length_from_library (sodium := Fixture.sodium)
                  (Binary [x01]) [x01] (repeat x03 64) Fixture.w0
                  eq_refl eq_refl eq_refl)).
  vm_compute. split; discriminate.
Defined.


Lemma sign_round_trip_witness :
  fst (enif_crypto_sign (sodium := Fixture.sodium)
         [Binary [x01]; Binary (repeat x03 64)] Fixture.w0)
  = Value (Binary (repeat x03 64 ++ [x01]))
  /\ fst (enif_crypto_sign_open (sodium := Fixture.sodium)
            [Binary (repeat x03 64 ++ [x01]); Binary (repeat x03 32)] Fixture.w0)
     = Value (Binary [x01]).
Proof.
  apply (sign_round_trip (sodium := Fixture.sodium) [x01] (repeat x03 64)
           (repeat x03 32) (repeat x03 64 ++ [x01]) [x01] Fixture.w0 Fixture.w0);
    vm_compute; reflexivity.
Defined.

Lemma stream_xor_twice_witness :
  exists c,
    fst (enif_crypto_stream_xor (sodium := Fixture.sodium)
           [Cons (Int 1) (Binary [x02]); Fixture.nonce; Fixture.key x05] Fixture.w0)
    = Value (Binary c)
    /\ fst (enif_crypto_stream_xor (sodium := Fixture.sodium)
              [Binary c; Fixture.nonce; Fixture.key x05] Fixture.w0)
       = Value (Binary [x01; x02]).
Proof.
  apply (stream_xor_twice (sodium := Fixture.sodium) (Cons (Int 1) (Binary [x02]))
           [x01; x02] (repeat x07 24) (repeat x05 32) Fixture.w0 Fixture.w0);
    vm_compute; reflexivity.
Defined.

(** ** Error values and verdicts *)

(** X19: the only error tuples a NIF returns are [{error, alloc_failed}]
    and [{error, failed_verification}]; the first is returned only when an
    allocation was in fact refused, the second only by the three opening
    NIFs. *)
Theorem error_values {sodium : Sodium} (f : fn) (argv : list ERL_NIF_TERM)
    (w : world) (a : ERL_NIF_TERM) :
  fst (deref f argv w) = Value (Tuple2 (Atom "error") a) ->
  (a = Atom "alloc_failed"
   /\ exists n, In (Alloc n false) (emitted (deref f argv) w))
  \/ (a = Atom "failed_verification"
      /\ (f = fn_crypto_box_open \/ f = fn_crypto_secretbox_open
          \/ f = fn_crypto_sign_open)).
Proof.
  destruct f; autounfold with nifs;
    do 5 try (destruct argv as [|? argv]);
    repeat split_guard; cbn [negb orb]; run;
    repeat (split_if; cbn [fst snd trace heap entropy]);
    rewrite <- ?app_assoc; cbn [app];
    rewrite ?skipn_app_length, ?skipn_all_length;
    unfold enif_make_sub_binary;
    repeat (split_if; cbn [fst snd]);
    intros H; try discriminate H;
    injection H as <-;
    solve [ left; split; [reflexivity|eexists; cbn [In]; eauto]
          | right; split; [reflexivity|tauto] ].
Qed.

(** The refused buffer of [crypto_hash]. *)
Lemma error_values_witness :
  exists n,
    In (Alloc n false)
       (emitted (deref (sodium := Fixture.sodium) fn_crypto_hash [Nil])
          Fixture.w_full).
Proof.
  destruct (error_values (sodium := Fixture.sodium) fn_crypto_hash [Nil]
              Fixture.w_full (Atom "alloc_failed") eq_refl) as [[_ H]|[H _]].
  - exact H.
  - discriminate H.
Defined.

(** X20: for conforming arguments the four NIFs that answer yes or no
    return [true] exactly when the library returns 0, and [false] for every
    other status. *)
Theorem verdict_follows_status {sodium : Sodium} (f : fn)
    (argv : list ERL_NIF_TERM) (args : list arg) (rc : Z) (w : world) :
  validated f argv = Some args ->
  comparison_status f args = Some rc ->
  fst (deref f argv w)
  = Value (enif_make_atom (if rc =? 0 then "true" else "false")).
Proof.
  intros Hv Hs.
  destruct f; try (cbn in Hs; discriminate Hs);
    unfold validated in Hv; cbn [primitive_spec] in Hv;
    guard_cases argv Hv;
    injection Hv as <-; cbn in Hs; injection Hs as <-;
    run;
    match goal with
    | |- context [0 =? ?x] => rewrite (Z.eqb_sym 0 x); destruct (x =? 0)
    end; reflexivity.
Qed.

(** A wrong authenticator. *)
Lemma verdict_follows_status_witness :
  fst (deref (sodium := Fixture.sodium) fn_crypto_auth_verify
         [Binary (repeat x09 32); Nil; Fixture.key x01] Fixture.w0)
  = Value (Atom "false").
Proof.
  apply (verdict_follows_status (sodium := Fixture.sodium) fn_crypto_auth_verify
           [Binary (repeat x09 32); Nil; Fixture.key x01]
           [Bytes (repeat x09 32); Bytes []; Bytes (repeat x01 32)] (-1)
           Fixture.w0).
  - reflexivity.
  - vm_compute. reflexivity.
Defined.

(** The failed opening of a 20-byte ciphertext releases its buffer, and
    [enif_crypto_stream], whose contract has a length, is a dirty job. *)
Lemma release_iff_failed_verification_witness :
  In Release
     (emitted (deref (sodium := Fixture.sodium) fn_crypto_secretbox_open
                 [Binary (Fixture.zeros 20); Fixture.nonce; Fixture.key x01])
        Fixture.w0).
Proof.
  apply (proj2 (proj1 (release_iff_failed_verification (sodium := Fixture.sodium)
                         fn_crypto_secretbox_open
                         [Binary (Fixture.zeros 20); Fixture.nonce; Fixture.key x01]
                         Fixture.w0))).
  reflexivity.
Defined.

Lemma dirty_iff_variable_size_witness :
  exists e, In e nif_funcs /\ fptr e = fn_crypto_stream /\ is_dirty e = true.
Proof.
  apply (proj2 (dirty_iff_variable_size fn_crypto_stream)).
  eexists. split; reflexivity.
Defined.
